(** * SecurityRatConnector: the request dispatcher and its response cache

    A shallow embedding of [securityratconnector.py].  The connector is a
    Python object whose methods mutate [self] and talk to a remote service
    through a [requests] session; both are modelled by explicit state
    passing.  Exceptions do not roll the state back, so a computation
    returns a result (a value or a raised exception) together with the state
    it leaves behind. *)

From Stdlib Require Import ZArith String Ascii List.
From stdpp Require Import base strings gmap list pretty.

Local Open Scope string_scope.
Local Open Scope Z_scope.
Local Set Warnings "-register-all".

(** ** Values *)

(** What [req.json()] yields and what the helpers build as request bodies.
    [JNull] is Python's [None]; a [JDict] keeps Python's insertion order. *)
Inductive json : Type :=
| JNull
| JBool (b : bool)
| JInt (n : Z)
| JStr (s : string)
| JList (l : list json)
| JDict (d : list (string * json)).

(** [v is None] *)
Definition is_None (v : json) : bool :=
  match v with JNull => true | _ => false end.

(** [d[k] = v] on a Python dict: overwrite in place, or append a new key. *)
Fixpoint dict_set (d : list (string * json)) (k : string) (v : json)
  : list (string * json) :=
  match d with
  | [] => [(k, v)]
  | (k', v') :: d' =>
      if String.eqb k' k then (k', v) :: d' else (k', v') :: dict_set d' k v
  end.

(** [d.get(k)] *)
Fixpoint dict_get (d : list (string * json)) (k : string) : option json :=
  match d with
  | [] => None
  | (k', v') :: d' => if String.eqb k' k then Some v' else dict_get d' k
  end.

(** ** Exceptions and results *)

Inductive exn : Type :=
| Exception (msg : string)
| ValueError (msg : string)
| KeyError (key : string)
| TypeError
| JSONDecodeError.

Inductive result (A : Type) : Type :=
| Ok (a : A)
| Raise (e : exn).
Arguments Ok {A} a.
Arguments Raise {A} e.

(** The exception every dispatch operation raises on a status of 400 or
    more: a plain [Exception] whose message starts with this prefix. *)
Definition request_prefix : string := "Request unsuccessfully: ".

Definition is_RequestError (e : exn) : Prop :=
  ∃ detail, e = Exception (request_prefix +:+ detail).

Definition raises_RequestError {A} (r : result A) : Prop :=
  match r with Raise e => is_RequestError e | Ok _ => False end.

(** ** Python's string formatting *)

Definition hex_digit (n : N) : ascii :=
  match n with
  | 0 => "0" | 1 => "1" | 2 => "2" | 3 => "3" | 4 => "4" | 5 => "5"
  | 6 => "6" | 7 => "7" | 8 => "8" | 9 => "9" | 10 => "a" | 11 => "b"
  | 12 => "c" | 13 => "d" | 14 => "e" | _ => "f"
  end%N%char.

(** The double quote character. *)
Definition dquote : ascii := ascii_of_nat 34.

Definition has_byte (c : ascii) (s : string) : bool :=
  existsb (Ascii.eqb c) (list_ascii_of_string s).

(** One byte of [repr(bytes)], for the chosen quote character. *)
Definition repr_byte (quote c : ascii) : string :=
  let n := N_of_ascii c in
  if (Ascii.eqb c quote || Ascii.eqb c "\")%char%bool
  then String "\" (String c "")
  else if (n =? 9)%N then "\t"
  else if (n =? 10)%N then "\n"
  else if (n =? 13)%N then "\r"
  else if ((n <? 32) || (127 <=? n))%N%bool
  then String "\" (String "x" (String (hex_digit (n / 16)) (String (hex_digit (n mod 16)) "")))
  else String c "".

Fixpoint repr_bytes_body (quote : ascii) (s : string) : string :=
  match s with
  | EmptyString => ""
  | String c s' => repr_byte quote c +:+ repr_bytes_body quote s'
  end.

(** ['%s' % b] for a [bytes] object [b]: its [repr], [b'...']; the quote is
    a double quote only when [b] holds a single quote and no double one. *)
Definition bytes_repr (s : string) : string :=
  let quote := if (has_byte "'" s && negb (has_byte dquote s))%bool
               then dquote else "'"%char in
  String "b" (String quote (repr_bytes_body quote s +:+ String quote "")).

(** ['%s' % n] for an [int]. *)
Definition str_int (n : Z) : string := pretty n.

(** ** The remote service and the client state *)

Inductive Method : Type := GET | POST | PUT | DELETE.

(** One call of [self.session.get/put/delete/post(url, json=..., headers=...,
    verify=...)]. *)
Record Request : Type := mkRequest {
  r_method : Method;
  r_url : string;
  r_json : option json;
  r_headers : gmap string (option string);
  r_verify : bool
}.

(** What the client reads of a [requests.Response]: [status_code], the raw
    [content], the outcome of [json()] ([None] when the content does not
    decode) and the cookies the response sets ([None] expires one). *)
Record Response : Type := mkResponse {
  status_code : Z;
  content : string;
  json_body : option json;
  set_cookie : list (string * option string)
}.

(** The remote service: any function from the requests received so far
    (oldest first) and the current one to a response. *)
Definition Remote : Type := list Request → Request → Response.

(** The fields of [self] ([session.cookies], [api], [verifyCertificates],
    [cached], [cache], [headers]), the remote service, and the exchanges
    made so far, oldest first. *)
Record World : Type := mkWorld {
  cookies : gmap string string;
  api : string;
  verifyCertificates : bool;
  cached : bool;
  cache : gmap string json;
  headers : gmap string (option string);
  remote : Remote;
  log : list (Request * Response)
}.

Definition with_cache (c : gmap string json) (w : World) : World :=
  mkWorld (cookies w) (api w) (verifyCertificates w) (cached w) c
          (headers w) (remote w) (log w).

Definition with_headers (h : gmap string (option string)) (w : World) : World :=
  mkWorld (cookies w) (api w) (verifyCertificates w) (cached w) (cache w)
          h (remote w) (log w).

Definition apply_cookie (jar : gmap string string) (c : string * option string)
  : gmap string string :=
  match c.2 with
  | Some v => <[c.1 := v]> jar
  | None => delete c.1 jar
  end.

(** The session sends the request, records the response's cookies in its
    jar, and hands the response back. *)
Definition exchange (req : Request) (w : World) : Response * World :=
  let resp := remote w (map fst (log w)) req in
  (resp,
   mkWorld (foldl apply_cookie (cookies w) (set_cookie resp)) (api w)
           (verifyCertificates w) (cached w) (cache w) (headers w)
           (remote w) (log w ++ [(req, resp)])).

(** ** Stateful computations that may raise *)

Definition M (A : Type) : Type := World → result A * World.

Definition ret {A} (a : A) : M A := fun w => (Ok a, w).
Definition raise {A} (e : exn) : M A := fun w => (Raise e, w).
Definition bind {A B} (m : M A) (k : A → M B) : M B :=
  fun w => match m w with
           | (Ok a, w') => k a w'
           | (Raise e, w') => (Raise e, w')
           end.
Definition gets {A} (f : World → A) : M A := fun w => (Ok (f w), w).
Definition modify (f : World → World) : M unit := fun w => (Ok tt, f w).

Notation "'do' x <- c ; k" := (bind c (fun x => k))
  (at level 10, x name, c at level 100, k at level 200).
Notation "c ;; k" := (bind c (fun _ => k))
  (at level 100, k at level 200, right associativity).

(** [self.session.cookies[name]] *)
Definition cookie_getitem (name : string) : M string :=
  do jar <- gets cookies;
  match jar !! name with
  | Some v => ret v
  | None => raise (KeyError name)
  end.

(** [self.cache[key]] *)
Definition cache_getitem (key : string) : M json :=
  do c <- gets cache;
  match c !! key with
  | Some v => ret v
  | None => raise (KeyError key)
  end.

(** [key in self.cache.keys()] *)
Definition in_keys (key : string) (c : gmap string json) : bool :=
  bool_decide (is_Some (c !! key)).

Definition session_request (m : Method) (url : string) (body : option json)
  (hs : gmap string (option string)) : M Response :=
  do verify <- gets verifyCertificates;
  fun w => let (resp, w') := exchange (mkRequest m url body hs verify) w in
           (Ok resp, w').

(** [req.json()] *)
Definition resp_json (req : Response) : M json :=
  match json_body req with
  | Some v => ret v
  | None => raise JSONDecodeError
  end.

(** The endpoint's entry is overwritten with [None] when caching is on and
    the endpoint is a key of the cache. *)
Definition invalidate (endpoint : string) : M unit :=
  do c <- gets cached;
  do ch <- gets cache;
  if (c && in_keys endpoint ch)%bool
  then modify (fun w => with_cache (<[endpoint := JNull]> (cache w)) w)
  else ret tt.

(** ** The constructor and the dispatch operations *)

Definition init (apiEndpoint : string) (verifyCertificates cached : bool)
  (srv : Remote) : World :=
  mkWorld ∅ apiEndpoint verifyCertificates cached ∅
          (<["content-type" := Some "application/json;charset=utf-8"]>
             (<["Accept" := Some "application/json"]>
                (<["X-CSRF-TOKEN" := None]> ∅)))
          srv [].

Definition put (endpoint : string) (data : json) : M json :=
  do tok <- cookie_getitem "CSRF-TOKEN";
  modify (fun w => with_headers (<["X-CSRF-TOKEN" := Some tok]> (headers w)) w);;
  do a <- gets api;
  do hs <- gets headers;
  do req <- session_request PUT (a +:+ "/" +:+ endpoint) (Some data) hs;
  if (400 <=? status_code req)%Z
  then raise (Exception (request_prefix +:+ str_int (status_code req)))
  else
    invalidate endpoint;;
    resp_json req.

Definition get (endpoint : string) : M json :=
  do tok <- cookie_getitem "CSRF-TOKEN";
  modify (fun w => with_headers (<["X-CSRF-TOKEN" := Some tok]> (headers w)) w);;
  do a <- gets api;
  do hs <- gets headers;
  do req <- session_request GET (a +:+ "/" +:+ endpoint) None hs;
  if (400 <=? status_code req)%Z
  then raise (Exception (request_prefix +:+ str_int (status_code req)))
  else resp_json req.

Definition delete (endpoint : string) : M bool :=
  do tok <- cookie_getitem "CSRF-TOKEN";
  modify (fun w => with_headers (<["X-CSRF-TOKEN" := Some tok]> (headers w)) w);;
  do a <- gets api;
  do hs <- gets headers;
  do req <- session_request DELETE (a +:+ "/" +:+ endpoint) None hs;
  if (400 <=? status_code req)%Z
  then raise (Exception (request_prefix +:+ str_int (status_code req)))
  else
    invalidate endpoint;;
    ret true.

Definition post (endpoint : string) (data : json) : M json :=
  do tok <- cookie_getitem "CSRF-TOKEN";
  let headers := <["content-type" := Some "application/json;charset=utf-8"]>
                   (<["Accept" := Some "application/json"]>
                      (<["X-CSRF-TOKEN" := Some tok]> ∅)) in
  do a <- gets api;
  do req <- session_request POST (a +:+ "/" +:+ endpoint) (Some data) headers;
  if (400 <=? status_code req)%Z
  then raise (Exception (request_prefix +:+ bytes_repr (content req)))
  else
    invalidate endpoint;;
    resp_json req.

Definition getCached (cacheId : string) : M json :=
  do c <- gets cached;
  if c then
    do ch <- gets cache;
    if (in_keys cacheId ch && negb (is_None (default JNull (ch !! cacheId))))%bool
    then cache_getitem cacheId
    else
      do v <- get cacheId;
      modify (fun w => with_cache (<[cacheId := v]> (cache w)) w);;
      cache_getitem cacheId
  else get cacheId.

(** ** The entity helpers that take an identifier *)

(** [if id_ is None: raise ValueError(msg)] *)
Definition require_id (id_ : option Z) (msg : string) : M Z :=
  match id_ with
  | None => raise (ValueError msg)
  | Some i => ret i
  end.

Definition msg_none : string := "Id can't be none".
Definition msg_none_long : string :=
  "Id can't be none. Use getCollectionCategories for a list of all collection categories".

(** [data[key] = value]; only a dict takes a string key. *)
Definition setitem (data : json) (key : string) (value : json) : M json :=
  match data with
  | JDict d => ret (JDict (dict_set d key value))
  | _ => raise TypeError
  end.

(** [if param is not None: data[key] = conv(param)] *)
Definition set_if {A} (conv : A → json) (key : string) (param : option A)
  (data : json) : M json :=
  match param with
  | Some x => setitem data key (conv x)
  | None => ret data
  end.

(** [{'id': i}] and the list built by [for i in ids: l.append({'id': i})]. *)
Definition id_ref (i : Z) : json := JDict [("id", JInt i)].
Definition id_refs (ids : list Z) : json := JList (map id_ref ids).

Definition getCollectionCategory (id_ : option Z) : M json :=
  do i <- require_id id_ msg_none_long;
  get ("collectionCategorys/" +:+ str_int i).

Definition updateCollectionCategory (id_ : option Z) (name description : option string)
  (showOrder : option Z) (active : option bool) : M json :=
  require_id id_ msg_none;;
  do data <- getCollectionCategory id_;
  do data <- set_if JStr "name" name data;
  do data <- set_if JStr "description" description data;
  do data <- set_if JInt "showOrder" showOrder data;
  do data <- set_if JBool "active" active data;
  put "collectionCategorys" data.

Definition deleteCollectionCategory (id_ : option Z) : M bool :=
  do i <- require_id id_ msg_none;
  delete ("collectionCategorys/" +:+ str_int i).

Definition getCollectionInstance (id_ : option Z) : M json :=
  do i <- require_id id_ msg_none;
  get ("collectionInstances/" +:+ str_int i).

Definition updateCollectionInstance (id_ : option Z) (name description : option string)
  (collectionCategoryId showOrder : option Z) (active : option bool) : M json :=
  require_id id_ msg_none;;
  do data <- getCollectionInstance id_;
  do data <- set_if JStr "name" name data;
  do data <- set_if JStr "description" description data;
  do data <- set_if JInt "showOrder" showOrder data;
  do data <- set_if JBool "active" active data;
  do data <- set_if id_ref "collectionCategory" collectionCategoryId data;
  put "collectionInstances" data.

Definition deleteCollectionInstance (id_ : option Z) : M bool :=
  do i <- require_id id_ msg_none;
  delete ("collectionInstances/" +:+ str_int i).

Definition getTagCategory (id_ : option Z) : M json :=
  do i <- require_id id_ msg_none;
  get ("tagCategorys/" +:+ str_int i).

Definition updateTagCategory (id_ : option Z) (name description : option string)
  (showOrder : option Z) (active : option bool) : M json :=
  require_id id_ msg_none;;
  do data <- getTagCategory id_;
  do data <- set_if JStr "name" name data;
  do data <- set_if JStr "description" description data;
  do data <- set_if JInt "showOrder" showOrder data;
  do data <- set_if JBool "active" active data;
  put "tagCategorys" data.

Definition deleteTagCategory (id_ : option Z) : M bool :=
  do i <- require_id id_ msg_none;
  delete ("tagCategorys/" +:+ str_int i).

Definition getTagInstance (id_ : option Z) : M json :=
  do i <- require_id id_ msg_none;
  get ("tagInstances/" +:+ str_int i).

Definition updateTagInstance (id_ : option Z) (name description : option string)
  (tagCategoryId showOrder : option Z) (active : option bool) : M json :=
  require_id id_ msg_none;;
  do data <- getTagInstance id_;
  do data <- set_if JStr "name" name data;
  do data <- set_if JStr "description" description data;
  do data <- set_if JInt "showOrder" showOrder data;
  do data <- set_if JBool "active" active data;
  do data <- set_if id_ref "tagCategory" tagCategoryId data;
  put "tagInstances" data.

Definition deleteTagInstance (id_ : option Z) : M bool :=
  do i <- require_id id_ msg_none;
  delete ("tagInstances/" +:+ str_int i).

Definition getRequirementCategory (id_ : option Z) : M json :=
  do i <- require_id id_ msg_none;
  get ("reqCategorys/" +:+ str_int i).

Definition updateRequirementCategory (id_ : option Z)
  (name shortcut description : option string) (showOrder : option Z)
  (active : option bool) : M json :=
  require_id id_ msg_none;;
  do data <- getRequirementCategory id_;
  do data <- set_if JStr "name" name data;
  do data <- set_if JStr "description" description data;
  do data <- set_if JInt "showOrder" showOrder data;
  do data <- set_if JBool "active" active data;
  do data <- set_if JStr "shortcut" shortcut data;
  put "reqCategorys" data.

Definition deleteRequirementCategory (id_ : option Z) : M bool :=
  do i <- require_id id_ msg_none;
  delete ("reqCategorys/" +:+ str_int i).

Definition getRequirementSkeleton (id_ : option Z) : M json :=
  do i <- require_id id_ msg_none;
  get ("requirementSkeletons/" +:+ str_int i).

Definition updateRequirementSkeleton (id_ : option Z)
  (shortName description : option string) (requirementCategory : option Z)
  (collectionInstances tagInstances projectTypes : option (list Z))
  (showOrder : option Z) (active : option bool) (universalId : option string)
  : M json :=
  require_id id_ msg_none;;
  do data <- getRequirementSkeleton id_;
  do data <- set_if JStr "description" description data;
  do data <- set_if JInt "showOrder" showOrder data;
  do data <- set_if JBool "active" active data;
  do data <- set_if JStr "shortName" shortName data;
  do data <- set_if id_ref "reqCategory" requirementCategory data;
  do data <- set_if id_refs "collectionInstances" collectionInstances data;
  do data <- set_if id_refs "tagInstances" tagInstances data;
  do data <- set_if id_refs "projectTypes" projectTypes data;
  do data <- set_if JStr "universalId" universalId data;
  put "requirementSkeletons" data.

Definition deleteRequirementSkeleton (id_ : option Z) : M bool :=
  do i <- require_id id_ msg_none;
  delete ("requirementSkeletons/" +:+ str_int i).

Definition getOptColumnType (id_ : option Z) : M json :=
  do i <- require_id id_ msg_none;
  get ("optColumnTypes/" +:+ str_int i).

Definition updateOptColumnType (id_ : option Z) (name description : option string)
  : M json :=
  require_id id_ msg_none;;
  do data <- getOptColumnType id_;
  do data <- set_if JStr "name" name data;
  do data <- set_if JStr "description" description data;
  put "optColumnTypes" data.

Definition deleteOptColumnType (id_ : option Z) : M bool :=
  do i <- require_id id_ msg_none;
  delete ("optColumnTypes/" +:+ str_int i).

Definition getOptColumn (id_ : option Z) : M json :=
  do i <- require_id id_ msg_none;
  get ("optColumns/" +:+ str_int i).

Definition updateOptColumn (id_ : option Z) (name description : option string)
  (optColumnTypeId showOrder : option Z) (active isVisibleByDefault : option bool)
  : M json :=
  require_id id_ msg_none;;
  do data <- getOptColumn id_;
  do data <- set_if JStr "name" name data;
  do data <- set_if JStr "description" description data;
  do data <- set_if JInt "showOrder" showOrder data;
  do data <- set_if JBool "active" active data;
  do data <- set_if id_ref "optColumnType" optColumnTypeId data;
  do data <- set_if JBool "isVisibleByDefault" isVisibleByDefault data;
  put "optColumns" data.

Definition deleteOptColumn (id_ : option Z) : M bool :=
  do i <- require_id id_ msg_none;
  delete ("optColumns/" +:+ str_int i).

Definition getOptColumnContent (id_ : option Z) : M json :=
  do i <- require_id id_ msg_none;
  get ("optColumnContents/" +:+ str_int i).

Definition updateOptColumnContent (id_ : option Z) (content : option string)
  (optColumnId requirementSkeletonId : option Z) : M json :=
  require_id id_ msg_none;;
  do data <- getOptColumnContent id_;
  do data <- set_if JStr "content" content data;
  do data <- set_if id_ref "optColumn" optColumnId data;
  do data <- set_if id_ref "requirementSkeleton" requirementSkeletonId data;
  put "optColumnContents" data.

Definition deleteOptColumnContent (id_ : option Z) : M bool :=
  do i <- require_id id_ msg_none;
  delete ("optColumnContents/" +:+ str_int i).

Definition getProjectType (id_ : option Z) : M json :=
  do i <- require_id id_ msg_none;
  get ("projectTypes/" +:+ str_int i).

Definition updateProjectType (id_ : option Z) (name description : option string)
  (statusColumnIds optColumnIds : option (list Z)) (showOrder : option Z)
  (active : option bool) : M json :=
  require_id id_ msg_none;;
  do data <- getProjectType id_;
  do data <- set_if JStr "name" name data;
  do data <- set_if JStr "description" description data;
  do data <- set_if JInt "showOrder" showOrder data;
  do data <- set_if JBool "active" active data;
  do data <- set_if id_refs "optColumns" optColumnIds data;
  do data <- set_if id_refs "statusColumns" statusColumnIds data;
  put "projectTypes" data.

Definition deleteProjectType (id_ : option Z) : M bool :=
  do i <- require_id id_ msg_none;
  delete ("projectTypes/" +:+ str_int i).

Definition getStatusColumn (id_ : option Z) : M json :=
  do i <- require_id id_ msg_none_long;
  get ("statusColumns/" +:+ str_int i).

Definition getAlternativeInstance (id_ : option Z) : M json :=
  do i <- require_id id_ msg_none_long;
  get ("alternativeInstances/" +:+ str_int i).

(** ** Calls, as data

    The properties quantify over "every dispatch operation", "every single-item
    operation" and "every update operation"; these types enumerate them and
    the [run_*] functions send each name to the function above. *)

(** The five operations of the dispatcher and of the cache in front of it. *)
Inductive Op : Type :=
| OGet (endpoint : string)
| OPost (endpoint : string) (data : json)
| OPut (endpoint : string) (data : json)
| ODelete (endpoint : string)
| OGetCached (cacheId : string).

Definition run_op (o : Op) : M json :=
  match o with
  | OGet e => get e
  | OPost e d => post e d
  | OPut e d => put e d
  | ODelete e => do b <- delete e; ret (JBool b)
  | OGetCached e => getCached e
  end.

Definition op_endpoint (o : Op) : string :=
  match o with
  | OGet e | OPost e _ | OPut e _ | ODelete e | OGetCached e => e
  end.

(** post, put and delete are the mutating operations. *)
Definition is_mutation (o : Op) : bool :=
  match o with
  | OPost _ _ | OPut _ _ | ODelete _ => true
  | OGet _ | OGetCached _ => false
  end.

Definition op_method (o : Op) : Method :=
  match o with
  | OGet _ | OGetCached _ => GET
  | OPost _ _ => POST
  | OPut _ _ => PUT
  | ODelete _ => DELETE
  end.

(** A caller running operations one after the other, catching whatever one
    of them raises and going on. *)
Fixpoint run_ops (os : list Op) (w : World) : World :=
  match os with
  | [] => w
  | o :: os' => run_ops os' (run_op o w).2
  end.

Inductive Getter : Type :=
| GetCollectionCategory | GetCollectionInstance | GetTagCategory | GetTagInstance
| GetRequirementCategory | GetRequirementSkeleton | GetOptColumnType
| GetOptColumn | GetOptColumnContent | GetProjectType | GetStatusColumn
| GetAlternativeInstance.

Definition run_getter (g : Getter) : option Z → M json :=
  match g with
  | GetCollectionCategory => getCollectionCategory
  | GetCollectionInstance => getCollectionInstance
  | GetTagCategory => getTagCategory
  | GetTagInstance => getTagInstance
  | GetRequirementCategory => getRequirementCategory
  | GetRequirementSkeleton => getRequirementSkeleton
  | GetOptColumnType => getOptColumnType
  | GetOptColumn => getOptColumn
  | GetOptColumnContent => getOptColumnContent
  | GetProjectType => getProjectType
  | GetStatusColumn => getStatusColumn
  | GetAlternativeInstance => getAlternativeInstance
  end.

Inductive Deleter : Type :=
| DeleteCollectionCategory | DeleteCollectionInstance | DeleteTagCategory
| DeleteTagInstance | DeleteRequirementCategory | DeleteRequirementSkeleton
| DeleteOptColumnType | DeleteOptColumn | DeleteOptColumnContent
| DeleteProjectType.

Definition run_deleter (d : Deleter) : option Z → M bool :=
  match d with
  | DeleteCollectionCategory => deleteCollectionCategory
  | DeleteCollectionInstance => deleteCollectionInstance
  | DeleteTagCategory => deleteTagCategory
  | DeleteTagInstance => deleteTagInstance
  | DeleteRequirementCategory => deleteRequirementCategory
  | DeleteRequirementSkeleton => deleteRequirementSkeleton
  | DeleteOptColumnType => deleteOptColumnType
  | DeleteOptColumn => deleteOptColumn
  | DeleteOptColumnContent => deleteOptColumnContent
  | DeleteProjectType => deleteProjectType
  end.

(** An update call with its arguments, in the order of the signature. *)
Inductive UpdateCall : Type :=
| UpdateCollectionCategory (id_ : option Z) (name description : option string)
    (showOrder : option Z) (active : option bool)
| UpdateCollectionInstance (id_ : option Z) (name description : option string)
    (collectionCategoryId showOrder : option Z) (active : option bool)
| UpdateTagCategory (id_ : option Z) (name description : option string)
    (showOrder : option Z) (active : option bool)
| UpdateTagInstance (id_ : option Z) (name description : option string)
    (tagCategoryId showOrder : option Z) (active : option bool)
| UpdateRequirementCategory (id_ : option Z)
    (name shortcut description : option string) (showOrder : option Z)
    (active : option bool)
| UpdateRequirementSkeleton (id_ : option Z)
    (shortName description : option string) (requirementCategory : option Z)
    (collectionInstances tagInstances projectTypes : option (list Z))
    (showOrder : option Z) (active : option bool) (universalId : option string)
| UpdateOptColumnType (id_ : option Z) (name description : option string)
| UpdateOptColumn (id_ : option Z) (name description : option string)
    (optColumnTypeId showOrder : option Z) (active isVisibleByDefault : option bool)
| UpdateOptColumnContent (id_ : option Z) (content : option string)
    (optColumnId requirementSkeletonId : option Z)
| UpdateProjectType (id_ : option Z) (name description : option string)
    (statusColumnIds optColumnIds : option (list Z)) (showOrder : option Z)
    (active : option bool).

Definition run_update (u : UpdateCall) : M json :=
  match u with
  | UpdateCollectionCategory i n d s a => updateCollectionCategory i n d s a
  | UpdateCollectionInstance i n d c s a => updateCollectionInstance i n d c s a
  | UpdateTagCategory i n d s a => updateTagCategory i n d s a
  | UpdateTagInstance i n d t s a => updateTagInstance i n d t s a
  | UpdateRequirementCategory i n sc d s a => updateRequirementCategory i n sc d s a
  | UpdateRequirementSkeleton i sn d rc ci ti pt s a ui =>
      updateRequirementSkeleton i sn d rc ci ti pt s a ui
  | UpdateOptColumnType i n d => updateOptColumnType i n d
  | UpdateOptColumn i n d t s a v => updateOptColumn i n d t s a v
  | UpdateOptColumnContent i c o r => updateOptColumnContent i c o r
  | UpdateProjectType i n d sc oc s a => updateProjectType i n d sc oc s a
  end.

Definition update_id (u : UpdateCall) : option Z :=
  match u with
  | UpdateCollectionCategory i _ _ _ _ | UpdateCollectionInstance i _ _ _ _ _
  | UpdateTagCategory i _ _ _ _ | UpdateTagInstance i _ _ _ _ _
  | UpdateRequirementCategory i _ _ _ _ _
  | UpdateRequirementSkeleton i _ _ _ _ _ _ _ _ _
  | UpdateOptColumnType i _ _ | UpdateOptColumn i _ _ _ _ _ _
  | UpdateOptColumnContent i _ _ _ | UpdateProjectType i _ _ _ _ _ _ => i
  end.

(** Every operation that takes the identifier of a single item. *)
Inductive IdCall : Type :=
| CallGet (g : Getter) (id_ : option Z)
| CallDelete (d : Deleter) (id_ : option Z)
| CallUpdate (u : UpdateCall).

Definition run_idcall (c : IdCall) : M json :=
  match c with
  | CallGet g i => run_getter g i
  | CallDelete d i => do b <- run_deleter d i; ret (JBool b)
  | CallUpdate u => run_update u
  end.

Definition idcall_id (c : IdCall) : option Z :=
  match c with
  | CallGet _ i | CallDelete _ i => i
  | CallUpdate u => update_id u
  end.

(** Any call of the client: an operation of the dispatcher or of the cache,
    or a single-item helper. *)
Inductive Call : Type :=
| CallOp (o : Op)
| CallItem (c : IdCall).

Definition run_call (c : Call) : M json :=
  match c with
  | CallOp o => run_op o
  | CallItem c => run_idcall c
  end.

(** A caller making calls one after the other, going on after a failure. *)
Fixpoint run_calls (cs : list Call) (w : World) : World :=
  match cs with
  | [] => w
  | c :: cs' => run_calls cs' (run_call c w).2
  end.

(** ** A remote service for examples: it answers the n-th request with the
    n-th response of a script, and with [dflt] once the script is over. *)
Definition scripted (script : list Response) (dflt : Response) : Remote :=
  fun earlier _ => nth (length earlier) script dflt.

Definition ok_json (v : json) : Response := mkResponse 200 "" (Some v) [].
Definition failed (status : Z) (body : string) : Response :=
  mkResponse status body None [].

(** A client that has logged in: the jar holds the token [tok]. *)
Definition logged_in (tok : string) (caching : bool) (srv : Remote) : World :=
  let w := init "http://server/api" true caching srv in
  mkWorld (<["CSRF-TOKEN" := tok]> (cookies w)) (api w) (verifyCertificates w)
          (cached w) (cache w) (headers w) (remote w) (log w).


(** ** Vocabulary of the statements

    The definitions below do not come from the source: they name what the
    properties talk about (the request an operation sends, the answer it
    gets, when an entry counts as present), and the lemmas relate them to
    the operations above. *)

(** get, post, put and delete; [getCached] is the cache in front of get. *)
Definition is_dispatch (o : Op) : bool :=
  match o with OGetCached _ => false | _ => true end.

Definition op_body (o : Op) : option json :=
  match o with
  | OPost _ d | OPut _ d => Some d
  | OGet _ | ODelete _ | OGetCached _ => None
  end.

Definition url_of (w : World) (endpoint : string) : string :=
  api w +:+ "/" +:+ endpoint.

(** The headers of the request: post builds its own dict, the others update
    [self.headers] and send that. *)
Definition op_headers (o : Op) (tok : string) (w : World)
  : gmap string (option string) :=
  match o with
  | OPost _ _ =>
      <["content-type" := Some "application/json;charset=utf-8"]>
        (<["Accept" := Some "application/json"]>
           (<["X-CSRF-TOKEN" := Some tok]> ∅))
  | _ => <["X-CSRF-TOKEN" := Some tok]> (headers w)
  end.

(** The request operation [o] sends from [w] when the jar holds [tok]. *)
Definition op_request (o : Op) (tok : string) (w : World) : Request :=
  mkRequest (op_method o) (url_of w (op_endpoint o)) (op_body o)
            (op_headers o tok w) (verifyCertificates w).

(** The response the remote service gives to it. *)
Definition answer (o : Op) (tok : string) (w : World) : Response :=
  remote w (map fst (log w)) (op_request o tok w).

(** The state once the exchange is over and before the status is read. *)
Definition after_exchange (o : Op) (tok : string) (w : World) : World :=
  let resp := answer o tok w in
  mkWorld (foldl apply_cookie (cookies w) (set_cookie resp)) (api w)
          (verifyCertificates w) (cached w) (cache w)
          (match o with OPost _ _ => headers w | _ => op_headers o tok w end)
          (remote w) (log w ++ [(op_request o tok w, resp)]).

Definition invalidated (endpoint : string) (w : World) : World :=
  if (cached w && in_keys endpoint (cache w))%bool
  then with_cache (<[endpoint := JNull]> (cache w)) w
  else w.

(** What follows the prefix in the message of the exception. *)
Definition error_detail (o : Op) (resp : Response) : string :=
  match o with
  | OPost _ _ => bytes_repr (content resp)
  | _ => str_int (status_code resp)
  end.

(** What the operation returns when the status is below 400. *)
Definition outcome (o : Op) (resp : Response) : result json :=
  match o with
  | ODelete _ => Ok (JBool true)
  | _ => match json_body resp with
         | Some v => Ok v
         | None => Raise JSONDecodeError
         end
  end.

(** [sub] occurs in [s]. *)
Fixpoint contains (sub s : string) : bool :=
  (String.prefix sub s ||
   match s with
   | EmptyString => false
   | String _ s' => contains sub s'
   end)%bool.

(** Bytes that [repr] prints as they are when the quote is a single one. *)
Definition plain_byte (c : ascii) : bool :=
  let n := N_of_ascii c in
  ((32 <=? n) && (n <? 127) && negb (Ascii.eqb c "'") && negb (Ascii.eqb c "\"))%N%char%bool.

Definition plain (s : string) : bool :=
  forallb plain_byte (list_ascii_of_string s).

(** The hit test of [getCached]: the entry for [E] is present. *)
Definition present (E : string) (w : World) : bool :=
  (in_keys E (cache w) && negb (is_None (default JNull (cache w !! E))))%bool.

(** The miss path of [getCached]: call get, store, return. *)
Definition fetch_and_store (E : string) (w : World) : result json * World :=
  match get E w with
  | (Ok v, w') => (Ok v, with_cache (<[E := v]> (cache w')) w')
  | (Raise e, w') => (Raise e, w')
  end.

(** An exchange of the log that is a GET of endpoint [E] which completed:
    status below 400 and a body that decodes. *)
Definition successful_get (a E : string) (x : Request * Response) : Prop :=
  r_method x.1 = GET ∧ r_url x.1 = a +:+ "/" +:+ E
  ∧ status_code x.2 < 400 ∧ is_Some (json_body x.2).

(** An exchange that is a POST, PUT or DELETE of endpoint [E] which passed
    the status test. *)
Definition successful_mutation (a E : string) (x : Request * Response) : Prop :=
  r_method x.1 ≠ GET ∧ r_url x.1 = a +:+ "/" +:+ E ∧ status_code x.2 < 400.

(** The log holds a completed GET of [E] with no successful mutation of [E]
    after it. *)
Definition fetched_since_mutation (a E : string) (l : list (Request * Response))
  : Prop :=
  ∃ before g after,
    l = (before ++ g :: after)%list
    ∧ successful_get a E g
    ∧ Forall (λ x, ¬ successful_mutation a E x) after.

(** The invariant of the data model: an entry is present only if it is
    backed by such a GET. *)
Definition cache_backed (w : World) : Prop :=
  ∀ E, present E w = true → fetched_since_mutation (api w) E (log w).

(** The cache a call of [o] leaves when its exchange got [resp]. *)
Definition cache_after (o : Op) (w : World) (resp : Response) : gmap string json :=
  if (400 <=? status_code resp)%Z then cache w
  else match o with
       | OGet _ => cache w
       | OGetCached E =>
           if cached w
           then match json_body resp with
                | Some v => <[E := v]> (cache w)
                | None => cache w
                end
           else cache w
       | _ => cache (invalidated (op_endpoint o) w)
       end.

(** What every operation keeps: with caching off the cache stays empty,
    and every present entry is backed. *)
Definition client_inv (w : World) : Prop :=
  (cached w = false → cache w = ∅) ∧ cache_backed w.

(** *** The update pattern, said once

    The resource an update call works on, and its optional parameters as
    (field, value) pairs in the order the source tests them; [None] is a
    parameter left out. *)
Definition update_resource (u : UpdateCall) : string :=
  match u with
  | UpdateCollectionCategory _ _ _ _ _ => "collectionCategorys"
  | UpdateCollectionInstance _ _ _ _ _ _ => "collectionInstances"
  | UpdateTagCategory _ _ _ _ _ => "tagCategorys"
  | UpdateTagInstance _ _ _ _ _ _ => "tagInstances"
  | UpdateRequirementCategory _ _ _ _ _ _ => "reqCategorys"
  | UpdateRequirementSkeleton _ _ _ _ _ _ _ _ _ _ => "requirementSkeletons"
  | UpdateOptColumnType _ _ _ => "optColumnTypes"
  | UpdateOptColumn _ _ _ _ _ _ _ => "optColumns"
  | UpdateOptColumnContent _ _ _ _ => "optColumnContents"
  | UpdateProjectType _ _ _ _ _ _ _ => "projectTypes"
  end.

Definition update_fields (u : UpdateCall) : list (string * option json) :=
  match u with
  | UpdateCollectionCategory _ n d s a
  | UpdateTagCategory _ n d s a =>
      [("name", JStr <$> n); ("description", JStr <$> d);
       ("showOrder", JInt <$> s); ("active", JBool <$> a)]
  | UpdateCollectionInstance _ n d c s a =>
      [("name", JStr <$> n); ("description", JStr <$> d);
       ("showOrder", JInt <$> s); ("active", JBool <$> a);
       ("collectionCategory", id_ref <$> c)]
  | UpdateTagInstance _ n d t s a =>
      [("name", JStr <$> n); ("description", JStr <$> d);
       ("showOrder", JInt <$> s); ("active", JBool <$> a);
       ("tagCategory", id_ref <$> t)]
  | UpdateRequirementCategory _ n sc d s a =>
      [("name", JStr <$> n); ("description", JStr <$> d);
       ("showOrder", JInt <$> s); ("active", JBool <$> a);
       ("shortcut", JStr <$> sc)]
  | UpdateRequirementSkeleton _ sn d rc ci ti pt s a ui =>
      [("description", JStr <$> d); ("showOrder", JInt <$> s);
       ("active", JBool <$> a); ("shortName", JStr <$> sn);
       ("reqCategory", id_ref <$> rc); ("collectionInstances", id_refs <$> ci);
       ("tagInstances", id_refs <$> ti); ("projectTypes", id_refs <$> pt);
       ("universalId", JStr <$> ui)]
  | UpdateOptColumnType _ n d =>
      [("name", JStr <$> n); ("description", JStr <$> d)]
  | UpdateOptColumn _ n d t s a v =>
      [("name", JStr <$> n); ("description", JStr <$> d);
       ("showOrder", JInt <$> s); ("active", JBool <$> a);
       ("optColumnType", id_ref <$> t); ("isVisibleByDefault", JBool <$> v)]
  | UpdateOptColumnContent _ c o r =>
      [("content", JStr <$> c); ("optColumn", id_ref <$> o);
       ("requirementSkeleton", id_ref <$> r)]
  | UpdateProjectType _ n d sc oc s a =>
      [("name", JStr <$> n); ("description", JStr <$> d);
       ("showOrder", JInt <$> s); ("active", JBool <$> a);
       ("optColumns", id_refs <$> oc); ("statusColumns", id_refs <$> sc)]
  end.



(** The merge as a computation: one [set_if] per field. *)
Fixpoint merge_fields (data : json) (fields : list (string * option json))
  : M json :=
  match fields with
  | [] => ret data
  | (k, o) :: fields' =>
      do data <- set_if (λ v, v) k o data;
      merge_fields data fields'
  end.

(** Fetch the record, merge, put it back. *)
Definition fetch_merge_put (u : UpdateCall) (i : Z) : M json :=
  do data <- get (update_resource u +:+ "/" +:+ str_int i);
  do data <- merge_fields data (update_fields u);
  put (update_resource u) data.

(** * The rest of the connector

    The login handshake, the helpers that list and add entities, the find
    helpers and the entry list. *)

(** ** Authentication *)

Definition newline : string := String (ascii_of_nat 10) "".

(** ['Login unsuccessfully: Code: %s\nMessage: %s' % (status_code, content)] *)
Definition login_message (r : Response) : string :=
  "Login unsuccessfully: Code: " +:+ str_int (status_code r) +:+ newline
  +:+ "Message: " +:+ bytes_repr (content r).

Definition getConfig : M unit :=
  do a <- gets api;
  do config <- session_request GET (a +:+ "/authentication_config") None
                 (<["content-type" := Some "application/json"]> ∅);
  if negb (status_code config =? 200)%Z
  then raise (Exception (login_message config))
  else ret tt.

(** [with_params] is the session's way to add [params=...] to the URL as a
    query string; it belongs to the [requests] library and is taken as a
    parameter. *)
Definition login (with_params : string → list (string * string) → string)
  (user password : string) : M bool :=
  do a <- gets api;
  do tok <- cookie_getitem "CSRF-TOKEN";
  do login <- session_request POST
                (with_params (a +:+ "/authentication")
                   [("j_password", password); ("j_username", user)])
                None
                (<["Content-Type" := Some "application/x-www-form-urlencoded"]>
                   (<["Accept" := Some "application/json"]>
                      (<["X-CSRF-TOKEN" := Some tok]> ∅)));
  if negb (status_code login =? 200)%Z
  then raise (Exception (login_message login))
  else ret true.

Definition doLogin (with_params : string → list (string * string) → string)
  (user password : string) : M bool :=
  getConfig;;
  login with_params user password.

(** ** Listing entities: the cached getters *)

Definition getCollectionCategories : M json := getCached "collectionCategorys".
Definition getCollectionInstances : M json := getCached "collectionInstances".
Definition getTagCategories : M json := getCached "tagCategorys".
Definition getTagInstances : M json := getCached "tagInstances".
Definition getRequirementCategories : M json := getCached "reqCategorys".
Definition getRequirementSkeletons : M json := getCached "requirementSkeletons".
Definition getOptColumnTypes : M json := getCached "optColumnTypes".
Definition getOptColumns : M json := getCached "optColumns".
Definition getOptColumnContents : M json := getCached "optColumnContents".
Definition getProjectTypes : M json := getCached "projectTypes".
Definition getStatusColumns : M json := getCached "statusColumns".
Definition getStatusColumnValues : M json := getCached "statusColumnValues".
Definition getAlternativeSets : M json := getCached "alternativeSets".
Definition getAlternativeInstances : M json := getCached "alternativeInstances".

(** ** Adding entities

    A parameter with a default value is an argument here; the caller passes
    the default. *)

Definition addCollectionCategory (name description : string) (showOrder : Z)
  (active : bool) : M json :=
  let data := JDict [("name", JStr name); ("description", JStr description);
                     ("showOrder", JInt showOrder); ("active", JBool active);
                     ("id", JNull)] in
  post "collectionCategorys" data.

Definition addCollectionInstance (name description : string)
  (collectionCategoryId showOrder : Z) (active : bool) : M json :=
  let data := JDict [("name", JStr name); ("description", JStr description);
                     ("showOrder", JInt showOrder); ("active", JBool active);
                     ("id", JNull);
                     ("collectionCategory", JDict [("id", JInt collectionCategoryId)])] in
  post "collectionInstances" data.

Definition addTagCategory (name description : string) (showOrder : Z)
  (active : bool) : M json :=
  let data := JDict [("name", JStr name); ("description", JStr description);
                     ("showOrder", JInt showOrder); ("active", JBool active);
                     ("id", JNull)] in
  post "tagCategorys" data.

Definition addTagInstance (name description : string) (tagCategoryId showOrder : Z)
  (active : bool) : M json :=
  let data := JDict [("name", JStr name); ("description", JStr description);
                     ("showOrder", JInt showOrder); ("active", JBool active);
                     ("id", JNull);
                     ("tagCategory", JDict [("id", JInt tagCategoryId)])] in
  post "tagInstances" data.

Definition addRequirementCategory (name shortcut description : string)
  (showOrder : Z) (active : bool) : M json :=
  let data := JDict [("name", JStr name); ("shortcut", JStr shortcut);
                     ("description", JStr description);
                     ("showOrder", JInt showOrder); ("active", JBool active);
                     ("id", JNull)] in
  post "reqCategorys" data.

(** [None] for a list parameter stands for the empty list; [universalId] is
    sent as it is, [None] included. *)
Definition addRequirementSkeleton (shortName description : string)
  (requirementCategory : Z)
  (collectionInstances tagInstances projectTypes : option (list Z))
  (showOrder : Z) (active : bool) (universalId : option string) : M json :=
  let projectTypes := default [] projectTypes in
  let tagInstances := default [] tagInstances in
  let collectionInstances := default [] collectionInstances in
  let collectionInstancesDataList := map id_ref collectionInstances in
  let tagInstancesDataList := map id_ref tagInstances in
  let projectTypesDataList := map id_ref projectTypes in
  let data := JDict [("shortName", JStr shortName);
                     ("description", JStr description);
                     ("showOrder", JInt showOrder); ("active", JBool active);
                     ("id", JNull);
                     ("universalId", from_option JStr JNull universalId);
                     ("reqCategory", JDict [("id", JInt requirementCategory)]);
                     ("tagInstances", JList tagInstancesDataList);
                     ("collectionInstances", JList collectionInstancesDataList);
                     ("projectTypes", JList projectTypesDataList)] in
  post "requirementSkeletons" data.

Definition addOptColumnType (name description : string) : M json :=
  let data := JDict [("name", JStr name); ("description", JStr description);
                     ("id", JNull)] in
  post "optColumnTypes" data.

Definition addOptColumn (name description : string) (optColumnTypeId showOrder : Z)
  (active isVisibleByDefault : bool) : M json :=
  let data := JDict [("name", JStr name); ("description", JStr description);
                     ("showOrder", JInt showOrder); ("active", JBool active);
                     ("isVisibleByDefault", JBool isVisibleByDefault);
                     ("id", JNull);
                     ("optColumnType", JDict [("id", JInt optColumnTypeId)])] in
  post "optColumns" data.

Definition addOptColumnContent (content : string)
  (optColumnId requirementSkeletonId : Z) : M json :=
  let data := JDict [("content", JStr content);
                     ("optColumn", JDict [("id", JInt optColumnId)]);
                     ("requirementSkeleton", JDict [("id", JInt requirementSkeletonId)])] in
  post "optColumnContents" data.

Definition addProjectType (name description : string)
  (statusColumnIds optColumnIds : option (list Z)) (showOrder : Z)
  (active : bool) : M json :=
  let optColumnIds := default [] optColumnIds in
  let statusColumnIds := default [] statusColumnIds in
  let optColumnList := map id_ref optColumnIds in
  let statusColumnList := map id_ref statusColumnIds in
  let data := JDict [("name", JStr name); ("description", JStr description);
                     ("showOrder", JInt showOrder); ("active", JBool active);
                     ("statusColumns", JList statusColumnList);
                     ("optColumns", JList optColumnList)] in
  post "projectTypes" data.

Definition addStatusColumn (name description : string) (isEnum : bool)
  (showOrder : Z) (active : bool) : M json :=
  let data := JDict [("name", JStr name); ("description", JStr description);
                     ("showOrder", JInt showOrder); ("active", JBool active);
                     ("id", JNull); ("isEnum", JBool isEnum)] in
  post "statusColumns" data.

Definition addStatusColumnValue (name description : string) (statusColumnId : Z)
  (showOrder : Z) (active : bool) : M json :=
  let data := JDict [("name", JStr name); ("description", JStr description);
                     ("statusColumn", JDict [("id", JInt statusColumnId)]);
                     ("showOrder", JInt showOrder); ("active", JBool active);
                     ("id", JNull)] in
  post "statusColumnValues" data.

Definition addAlternativeSet (name description : string) (optColumnId : Z)
  (showOrder : Z) (active : bool) : M json :=
  let data := JDict [("name", JStr name); ("description", JStr description);
                     ("optColumn", JDict [("id", JInt optColumnId)]);
                     ("showOrder", JInt showOrder); ("active", JBool active);
                     ("id", JNull)] in
  post "alternativeSets" data.

Definition addAlternativeInstance (content : string)
  (alternativeSetId requirementSkeletonId : Z) : M json :=
  let data := JDict [("content", JStr content);
                     ("alternativeSet", JDict [("id", JInt alternativeSetId)]);
                     ("requirementSkeleton", JDict [("id", JInt requirementSkeletonId)]);
                     ("id", JNull)] in
  post "alternativeInstances" data.

(** ** Finding entities in the cached lists *)

(** [for v in data]: what the loop visits, or the error of iterating a value
    that is no container.  A dict yields its keys, a string its
    characters. *)
Definition py_iter (data : json) : result (list json) :=
  match data with
  | JList l => Ok l
  | JDict d => Ok (map (λ kv, JStr kv.1) d)
  | JStr s => Ok (map (λ c, JStr (String c "")) (list_ascii_of_string s))
  | JNull | JBool _ | JInt _ => Raise TypeError
  end.

(** [v[key]] for a string key. *)
Definition subscript (v : json) (key : string) : result json :=
  match v with
  | JDict d => match dict_get d key with
               | Some x => Ok x
               | None => Raise (KeyError key)
               end
  | _ => Raise TypeError
  end.

(** [v == n] for an [int] [n]; [True] and [False] compare as 1 and 0. *)
Definition eq_int (v : json) (n : Z) : bool :=
  match v with
  | JInt m => (m =? n)%Z
  | JBool b => ((if b then 1 else 0) =? n)%Z
  | _ => false
  end.

(** The inner loop of [findRequirementSkeletonWithProjectType]: one
    [found.append(v)] for every project type of [v] whose id is in the
    list. *)
Fixpoint match_projectTypes (v : json) (pts : list json)
  (projectTypeList : list Z) (found : list json) : result (list json) :=
  match pts with
  | [] => Ok found
  | v1 :: pts' =>
      match subscript v1 "id" with
      | Raise e => Raise e
      | Ok i =>
          match_projectTypes v pts' projectTypeList
            (if existsb (eq_int i) projectTypeList then found ++ [v] else found)
      end
  end.

Fixpoint skeletons_with_projectType (data : list json) (projectTypeList : list Z)
  (found : list json) : result (list json) :=
  match data with
  | [] => Ok found
  | v :: data' =>
      match subscript v "projectTypes" with
      | Raise e => Raise e
      | Ok pts =>
          match py_iter pts with
          | Raise e => Raise e
          | Ok pts =>
              match match_projectTypes v pts projectTypeList found with
              | Raise e => Raise e
              | Ok found => skeletons_with_projectType data' projectTypeList found
              end
          end
      end
  end.

Definition lift {A} (r : result A) : M A :=
  match r with Ok a => ret a | Raise e => raise e end.

(** [projectType] is a list of ids ([inl]) or a single id ([inr]). *)
Definition findRequirementSkeletonWithProjectType (projectType : list Z + Z)
  : M json :=
  do data <- getRequirementSkeletons;
  let found := [] in
  let projectTypeList :=
    match projectType with inr p => [p] | inl l => l end in
  do data <- lift (py_iter data);
  do found <- lift (skeletons_with_projectType data projectTypeList found);
  ret (JList found).

(** The loop shared by the two finders that compare a nested id:
    [if v[field]['id'] == wanted: found.append(v)]. *)
Fixpoint contents_with_id (field : string) (data : list json) (wanted : Z)
  (found : list json) : result (list json) :=
  match data with
  | [] => Ok found
  | v :: data' =>
      match subscript v field with
      | Raise e => Raise e
      | Ok r =>
          match subscript r "id" with
          | Raise e => Raise e
          | Ok i =>
              contents_with_id field data' wanted
                (if eq_int i wanted then found ++ [v] else found)
          end
      end
  end.

Definition findOptColumnContentsWithRequirementSkeletonId
  (requirementSkeletonId : Z) : M json :=
  do data <- getOptColumnContents;
  let found := [] in
  do data <- lift (py_iter data);
  do found <- lift (contents_with_id "requirementSkeleton" data
                      requirementSkeletonId found);
  ret (JList found).

Definition findOptColumnContentsWithOptColumnId (optColumnId : Z) : M json :=
  do data <- getOptColumnContents;
  let found := [] in
  do data <- lift (py_iter data);
  do found <- lift (contents_with_id "optColumn" data optColumnId found);
  ret (JList found).

(** What the content finder can raise: an exception of the connector, or
    the [AttributeError] of calling [find] on a value that is no string. *)
Inductive find_exn : Type :=
| Raised (e : exn)
| AttributeError.

(** [v['content'].find(search) != -1] in a loop; [find] exists on strings
    only. *)
Fixpoint contents_with_content (data : list json) (search : string)
  (found : list json) : list json + find_exn :=
  match data with
  | [] => inl found
  | v :: data' =>
      match subscript v "content" with
      | Raise e => inr (Raised e)
      | Ok (JStr c) =>
          contents_with_content data' search
            (if contains search c then found ++ [v] else found)
      | Ok _ => inr AttributeError
      end
  end.

Definition findOptColumnContentsWithContent (search : string) (regex : bool)
  (w : World) : (list json + find_exn) * World :=
  match getOptColumnContents w with
  | (Raise e, w') => (inr (Raised e), w')
  | (Ok data, w') =>
      match py_iter data with
      | Raise e => (inr (Raised e), w')
      | Ok data => (contents_with_content data search [], w')
      end
  end.

(** ** The entry list *)

(** [v is False] *)
Definition is_False (v : json) : bool :=
  match v with JBool false => true | _ => false end.

(** [removeDeactivatedDict] on a value that is a dict: the loop runs over
    the items while [data], the same dict, takes the assignments
    [data[k] = r]. *)
Fixpoint removeDeactivatedValue (value : json) : json :=
  match value with
  | JDict d =>
      (fix loop (items data : list (string * json)) {struct items} : json :=
         match items with
         | [] => JDict data
         | (k, v) :: items' =>
             if (String.eqb k "active" && is_False v)%bool then JNull
             else match v with
                  | JDict _ =>
                      let r := removeDeactivatedValue v in
                      if is_None r then JNull
                      else loop items' (dict_set data k r)
                  | _ => loop items' data
                  end
         end) d d
  | _ => value
  end.

Definition removeDeactivatedDict (data : list (string * json)) : json :=
  removeDeactivatedValue (JDict data).

(** [for k, v in enumerate(data): if isinstance(v, dict): data[k] = ...] *)
Fixpoint removeDeactivated_loop (k : nat) (items data : list json) : list json :=
  match items with
  | [] => data
  | v :: items' =>
      removeDeactivated_loop (S k) items'
        (match v with
         | JDict d => <[k := removeDeactivatedDict d]> data
         | _ => data
         end)
  end.

(** The list the caller passed, after the loop, and the list returned:
    [[x for x in data if x is not None]]. *)
Definition removeDeactivatedList (data : list json) : list json * list json :=
  let data := removeDeactivated_loop 0 data data in
  (data, filter (λ x, is_None x = false) data).

(** [self.data] after the call and the list the new entry list holds. *)
Definition removeDeactivated (self_data : list json) : list json * list json :=
  let data := (removeDeactivatedList self_data).2 in
  (data, data).

(** ** More calls, as data *)

Inductive Lister : Type :=
| GetCollectionCategories | GetCollectionInstances | GetTagCategories
| GetTagInstances | GetRequirementCategories | GetRequirementSkeletons
| GetOptColumnTypes | GetOptColumns | GetOptColumnContents | GetProjectTypes
| GetStatusColumns | GetStatusColumnValues | GetAlternativeSets
| GetAlternativeInstances.

Definition run_lister (l : Lister) : M json :=
  match l with
  | GetCollectionCategories => getCollectionCategories
  | GetCollectionInstances => getCollectionInstances
  | GetTagCategories => getTagCategories
  | GetTagInstances => getTagInstances
  | GetRequirementCategories => getRequirementCategories
  | GetRequirementSkeletons => getRequirementSkeletons
  | GetOptColumnTypes => getOptColumnTypes
  | GetOptColumns => getOptColumns
  | GetOptColumnContents => getOptColumnContents
  | GetProjectTypes => getProjectTypes
  | GetStatusColumns => getStatusColumns
  | GetStatusColumnValues => getStatusColumnValues
  | GetAlternativeSets => getAlternativeSets
  | GetAlternativeInstances => getAlternativeInstances
  end.

(** An add call with its arguments, in the order of the signature. *)
Inductive AddCall : Type :=
| AddCollectionCategory (name description : string) (showOrder : Z) (active : bool)
| AddCollectionInstance (name description : string)
    (collectionCategoryId showOrder : Z) (active : bool)
| AddTagCategory (name description : string) (showOrder : Z) (active : bool)
| AddTagInstance (name description : string) (tagCategoryId showOrder : Z)
    (active : bool)
| AddRequirementCategory (name shortcut description : string) (showOrder : Z)
    (active : bool)
| AddRequirementSkeleton (shortName description : string)
    (requirementCategory : Z)
    (collectionInstances tagInstances projectTypes : option (list Z))
    (showOrder : Z) (active : bool) (universalId : option string)
| AddOptColumnType (name description : string)
| AddOptColumn (name description : string) (optColumnTypeId showOrder : Z)
    (active isVisibleByDefault : bool)
| AddOptColumnContent (content : string) (optColumnId requirementSkeletonId : Z)
| AddProjectType (name description : string)
    (statusColumnIds optColumnIds : option (list Z)) (showOrder : Z)
    (active : bool)
| AddStatusColumn (name description : string) (isEnum : bool) (showOrder : Z)
    (active : bool)
| AddStatusColumnValue (name description : string) (statusColumnId showOrder : Z)
    (active : bool)
| AddAlternativeSet (name description : string) (optColumnId showOrder : Z)
    (active : bool)
| AddAlternativeInstance (content : string)
    (alternativeSetId requirementSkeletonId : Z).

Definition run_add (a : AddCall) : M json :=
  match a with
  | AddCollectionCategory n d s a => addCollectionCategory n d s a
  | AddCollectionInstance n d c s a => addCollectionInstance n d c s a
  | AddTagCategory n d s a => addTagCategory n d s a
  | AddTagInstance n d t s a => addTagInstance n d t s a
  | AddRequirementCategory n sc d s a => addRequirementCategory n sc d s a
  | AddRequirementSkeleton sn d rc ci ti pt s a ui =>
      addRequirementSkeleton sn d rc ci ti pt s a ui
  | AddOptColumnType n d => addOptColumnType n d
  | AddOptColumn n d t s a v => addOptColumn n d t s a v
  | AddOptColumnContent c o r => addOptColumnContent c o r
  | AddProjectType n d sc oc s a => addProjectType n d sc oc s a
  | AddStatusColumn n d e s a => addStatusColumn n d e s a
  | AddStatusColumnValue n d c s a => addStatusColumnValue n d c s a
  | AddAlternativeSet n d o s a => addAlternativeSet n d o s a
  | AddAlternativeInstance c s r => addAlternativeInstance c s r
  end.

(** The two finders that compare a nested identifier. *)
Inductive IdFinder : Type :=
| FindOptColumnContentsWithRequirementSkeletonId
| FindOptColumnContentsWithOptColumnId.

Definition run_id_finder (f : IdFinder) : Z → M json :=
  match f with
  | FindOptColumnContentsWithRequirementSkeletonId =>
      findOptColumnContentsWithRequirementSkeletonId
  | FindOptColumnContentsWithOptColumnId =>
      findOptColumnContentsWithOptColumnId
  end.

(** ** [makeDictList] *)

(** What [makeDictList] builds: a dict from the ids of the entries to the
    entries, where every field that held a list holds the dict built from
    that list.  A field is a value of the response as it came ([Plain]) or
    such a dict ([Keyed]); the dicts keep their insertion order. *)
Inductive dval : Type :=
| Plain (v : json)
| Keyed (m : list (json * list (string * dval))).

Definition entry : Type := list (string * dval).
Definition dictlist : Type := list (json * entry).

(** [None], booleans, numbers and strings can be keys of a dict; a list or
    a dict as a key is a [TypeError]. *)
Definition hashable (v : json) : bool :=
  match v with
  | JList _ | JDict _ => false
  | _ => true
  end.

(** Equality of keys, [a == b]: [True] and [False] are the keys 1 and 0. *)
Definition key_eqb (a b : json) : bool :=
  match a, b with
  | JNull, JNull => true
  | JStr s, JStr t => String.eqb s t
  | JInt n, _ => eq_int b n
  | JBool c, _ => eq_int b (if c then 1 else 0)
  | _, _ => false
  end.

(** [dictList[i] = e]: a key that is there keeps its place and its first
    spelling, a new key goes to the end. *)
Fixpoint keyed_set (m : dictlist) (i : json) (e : entry) : dictlist :=
  match m with
  | [] => [(i, e)]
  | (j, e') :: m' =>
      if key_eqb j i then (j, e) :: m' else (j, e') :: keyed_set m' i e
  end.

(** [e[k] = v] *)
Fixpoint field_set (e : entry) (k : string) (v : dval) : entry :=
  match e with
  | [] => [(k, v)]
  | (k', v') :: e' =>
      if String.eqb k' k then (k', v) :: e' else (k', v') :: field_set e' k v
  end.

(** [del e[k]] *)
Definition field_del (e : entry) (k : string) : result entry :=
  if existsb (λ kv, String.eqb kv.1 k) e
  then Ok (filter (λ kv, kv.1 ≠ k) e)
  else Raise (KeyError k).

(** [dict(d)] on a [d] that is no dict reads [d] as a sequence of pairs.
    [pair_error n x] is the error of element [n] of that sequence: it has
    to be a sequence itself, of length 2, with a first component that can
    be a key. *)
Definition wrong_length (n len : nat) : exn :=
  ValueError ("dictionary update sequence element #"
              +:+ str_int (Z.of_nat n) +:+ " has length "
              +:+ str_int (Z.of_nat len) +:+ "; 2 is required").

Definition pair_error (n : nat) (x : json) : option exn :=
  match py_iter x with
  | Raise e => Some e
  | Ok [k; _] => if hashable k then None else Some TypeError
  | Ok l => Some (wrong_length n (length l))
  end.

Fixpoint first_pair_error (n : nat) (elems : list json) : option exn :=
  match elems with
  | [] => None
  | x :: elems' =>
      match pair_error n x with
      | Some e => Some e
      | None => first_pair_error (S n) elems'
      end
  end.

(** The error of [dict(d)], if it raises. *)
Definition dict_error (d : json) : option exn :=
  match d with
  | JDict _ => None
  | _ => match py_iter d with
         | Raise e => Some e
         | Ok elems => first_pair_error 0 elems
         end
  end.

(** One round of the loop of [makeDictList], for the element [d]: the key
    [d['id']] and the entry that [dictList] holds under it when the round
    is over.  The dict stored by [dictList[d['id']] = dict(d)] is the
    object the later statements change, so it is followed as [e] and
    stored when it has its final value.  The inner [loop] is the call
    [SecurityRatEntryList(d1).makeDictList()]. *)
Fixpoint makeDictEntry (d : json) : result (json * entry) :=
  match d with
  | JDict items =>
      (* dict(d), then d['id'] and the store under it *)
      match dict_get items "id" with
      | None => Raise (KeyError "id")
      | Some i =>
          if hashable i then
            match
              (fix fields (its : list (string * json)) (e : entry)
                 {struct its} : result entry :=
                 match its with
                 | [] => Ok e
                 | (k, d1) :: its' =>
                     match d1 with
                     | JList l =>
                         match
                           (fix loop (data : list json) (dictList : dictlist)
                              {struct data} : result dictlist :=
                              match data with
                              | [] => Ok dictList
                              | d' :: data' =>
                                  match makeDictEntry d' with
                                  | Raise ex => Raise ex
                                  | Ok (i', e') =>
                                      loop data' (keyed_set dictList i' e')
                                  end
                              end) l []
                         with
                         | Raise ex => Raise ex
                         | Ok nested => fields its' (field_set e k (Keyed nested))
                         end
                     | _ => fields its' e
                     end
                 end) items (map (λ kv, (kv.1, Plain kv.2)) items)
            with
            | Raise ex => Raise ex
            | Ok e =>
                match field_del e "id" with
                | Raise ex => Raise ex
                | Ok e => Ok (i, e)
                end
            end
          else Raise TypeError
      end
  | _ =>
      (* dict(d) raises, or d['id'] does *)
      match dict_error d with
      | Some ex => Raise ex
      | None => Raise TypeError
      end
  end.

(** [for d in self.data: ...] *)
Fixpoint makeDictList_loop (data : list json) (dictList : dictlist)
  : result dictlist :=
  match data with
  | [] => Ok dictList
  | d :: data' =>
      match makeDictEntry d with
      | Raise ex => Raise ex
      | Ok (i, e) => makeDictList_loop data' (keyed_set dictList i e)
      end
  end.

Definition makeDictList (self_data : list json) : result dictlist :=
  makeDictList_loop self_data [].

(** ** Vocabulary of the further statements

    As before, these definitions name what the properties talk about; they
    are not taken from the source. *)

(** The list getter of the entity a helper works on. *)
Definition add_lister (a : AddCall) : Lister :=
  match a with
  | AddCollectionCategory _ _ _ _ => GetCollectionCategories
  | AddCollectionInstance _ _ _ _ _ => GetCollectionInstances
  | AddTagCategory _ _ _ _ => GetTagCategories
  | AddTagInstance _ _ _ _ _ => GetTagInstances
  | AddRequirementCategory _ _ _ _ _ => GetRequirementCategories
  | AddRequirementSkeleton _ _ _ _ _ _ _ _ _ => GetRequirementSkeletons
  | AddOptColumnType _ _ => GetOptColumnTypes
  | AddOptColumn _ _ _ _ _ _ => GetOptColumns
  | AddOptColumnContent _ _ _ => GetOptColumnContents
  | AddProjectType _ _ _ _ _ _ => GetProjectTypes
  | AddStatusColumn _ _ _ _ _ => GetStatusColumns
  | AddStatusColumnValue _ _ _ _ _ => GetStatusColumnValues
  | AddAlternativeSet _ _ _ _ _ => GetAlternativeSets
  | AddAlternativeInstance _ _ _ => GetAlternativeInstances
  end.

Definition update_lister (u : UpdateCall) : Lister :=
  match u with
  | UpdateCollectionCategory _ _ _ _ _ => GetCollectionCategories
  | UpdateCollectionInstance _ _ _ _ _ _ => GetCollectionInstances
  | UpdateTagCategory _ _ _ _ _ => GetTagCategories
  | UpdateTagInstance _ _ _ _ _ _ => GetTagInstances
  | UpdateRequirementCategory _ _ _ _ _ _ => GetRequirementCategories
  | UpdateRequirementSkeleton _ _ _ _ _ _ _ _ _ _ => GetRequirementSkeletons
  | UpdateOptColumnType _ _ _ => GetOptColumnTypes
  | UpdateOptColumn _ _ _ _ _ _ _ => GetOptColumns
  | UpdateOptColumnContent _ _ _ _ => GetOptColumnContents
  | UpdateProjectType _ _ _ _ _ _ _ => GetProjectTypes
  end.

Definition deleter_lister (d : Deleter) : Lister :=
  match d with
  | DeleteCollectionCategory => GetCollectionCategories
  | DeleteCollectionInstance => GetCollectionInstances
  | DeleteTagCategory => GetTagCategories
  | DeleteTagInstance => GetTagInstances
  | DeleteRequirementCategory => GetRequirementCategories
  | DeleteRequirementSkeleton => GetRequirementSkeletons
  | DeleteOptColumnType => GetOptColumnTypes
  | DeleteOptColumn => GetOptColumns
  | DeleteOptColumnContent => GetOptColumnContents
  | DeleteProjectType => GetProjectTypes
  end.

Definition getter_lister (g : Getter) : Lister :=
  match g with
  | GetCollectionCategory => GetCollectionCategories
  | GetCollectionInstance => GetCollectionInstances
  | GetTagCategory => GetTagCategories
  | GetTagInstance => GetTagInstances
  | GetRequirementCategory => GetRequirementCategories
  | GetRequirementSkeleton => GetRequirementSkeletons
  | GetOptColumnType => GetOptColumnTypes
  | GetOptColumn => GetOptColumns
  | GetOptColumnContent => GetOptColumnContents
  | GetProjectType => GetProjectTypes
  | GetStatusColumn => GetStatusColumns
  | GetAlternativeInstance => GetAlternativeInstances
  end.

(** An exchange of the log is a request with this method and URL. *)
Definition sent (m : Method) (url : string) (x : Request * Response) : Prop :=
  r_method x.1 = m ∧ r_url x.1 = url.

(** The request of [getConfig] and the response the service gives to it. *)
Definition config_request (w : World) : Request :=
  mkRequest GET (api w +:+ "/authentication_config") None
            (<["content-type" := Some "application/json"]> ∅)
            (verifyCertificates w).

Definition config_answer (w : World) : Response :=
  remote w (map fst (log w)) (config_request w).

(** The cookie jar once the answer to [getConfig] has been received. *)
Definition jar_after_config (w : World) : gmap string string :=
  foldl apply_cookie (cookies w) (set_cookie (config_answer w)).

(** The request of [login] when the jar holds [tok]. *)
Definition login_request (wp : string → list (string * string) → string)
  (user password tok : string) (w : World) : Request :=
  mkRequest POST
            (wp (api w +:+ "/authentication")
                [("j_password", password); ("j_username", user)])
            None
            (<["Content-Type" := Some "application/x-www-form-urlencoded"]>
               (<["Accept" := Some "application/json"]>
                  (<["X-CSRF-TOKEN" := Some tok]> ∅)))
            (verifyCertificates w).

(** The values of [p['id']] for the items [p] of a list, when every item
    has one. *)
Fixpoint ids_of (pts : list json) : option (list json) :=
  match pts with
  | [] => Some []
  | p :: pts' =>
      match subscript p "id", ids_of pts' with
      | Ok i, Some ids => Some (i :: ids)
      | _, _ => None
      end
  end.

(** The identifiers of the project types of a skeleton. *)
Definition project_type_ids (v : json) : option (list json) :=
  match subscript v "projectTypes" with
  | Ok pts => match py_iter pts with
              | Ok pts => ids_of pts
              | Raise _ => None
              end
  | Raise _ => None
  end.

(** How many project types of [v] have their identifier among [wanted]. *)
Definition occurrences (wanted : list Z) (v : json) : nat :=
  match project_type_ids v with
  | Some ids => length (filter (λ i, existsb (eq_int i) wanted = true) ids)
  | None => 0%nat
  end.

(** [v[field]['id']] *)
Definition nested_id (field : string) (v : json) : result json :=
  match subscript v field with
  | Ok r => subscript r "id"
  | Raise e => Raise e
  end.

Definition has_id (field : string) (wanted : Z) (v : json) : bool :=
  match nested_id field v with
  | Ok i => eq_int i wanted
  | Raise _ => false
  end.

Definition finder_field (f : IdFinder) : string :=
  match f with
  | FindOptColumnContentsWithRequirementSkeletonId => "requirementSkeleton"
  | FindOptColumnContentsWithOptColumnId => "optColumn"
  end.

(** [v['content']] when it is a string. *)
Definition content_of (v : json) : option string :=
  match subscript v "content" with
  | Ok (JStr c) => Some c
  | _ => None
  end.

Definition has_content (search : string) (v : json) : bool :=
  match content_of v with
  | Some c => contains search c
  | None => false
  end.

(** *** The entry list *)

(** A value decoded from JSON is a Python value: the keys of a dict are
    distinct, at every depth. *)
Inductive well_formed : json → Prop :=
| wf_null : well_formed JNull
| wf_bool b : well_formed (JBool b)
| wf_int n : well_formed (JInt n)
| wf_str s : well_formed (JStr s)
| wf_list l : Forall well_formed l → well_formed (JList l)
| wf_dict d :
    NoDup d.*1 → Forall (λ kv, well_formed kv.2) d → well_formed (JDict d).

(** A record is deactivated when it holds ['active': False], itself or in
    a record reached through values that are records; lists are not
    looked into. *)
Fixpoint inactive (v : json) : bool :=
  match v with
  | JDict d =>
      (fix any (items : list (string * json)) : bool :=
         match items with
         | [] => false
         | (k, x) :: items' =>
             (String.eqb k "active" && is_False x) || inactive x || any items'
         end) d
  | _ => false
  end.

(** The loop of [removeDeactivatedDict], named: [items] are the items still
    to visit and [data] the dict with the assignments made so far. *)
Fixpoint removal_loop (items data : list (string * json)) : json :=
  match items with
  | [] => JDict data
  | (k, v) :: items' =>
      if (String.eqb k "active" && is_False v)%bool then JNull
      else match v with
           | JDict _ =>
               if is_None (removeDeactivatedValue v) then JNull
               else removal_loop items' (dict_set data k (removeDeactivatedValue v))
           | _ => removal_loop items' data
           end
  end.

(** What the list removal does to one element. *)
Definition removal_of (v : json) : json :=
  match v with
  | JDict d => removeDeactivatedDict d
  | _ => v
  end.

(** [well_formed], decided. *)
Fixpoint well_formedb (v : json) : bool :=
  match v with
  | JList l =>
      (fix all (l : list json) : bool :=
         match l with
         | [] => true
         | x :: l' => well_formedb x && all l'
         end) l
  | JDict d =>
      bool_decide (NoDup d.*1)
      && (fix all (items : list (string * json)) : bool :=
            match items with
            | [] => true
            | (_, x) :: items' => well_formedb x && all items'
            end) d
  | _ => true
  end.

(** What [removeDeactivatedValue] does on a dict: [None] when the record
    is deactivated, and otherwise a dict, the record itself when its keys
    are distinct at every depth. *)
Definition removal_spec (v : json) : Prop :=
  ∀ d, v = JDict d →
    (inactive v = true → removeDeactivatedValue v = JNull)
    ∧ (inactive v = false →
       is_None (removeDeactivatedValue v) = false
       ∧ (well_formed v → removeDeactivatedValue v = v)).

(** ** Vocabulary for [makeDictList] *)

(** [dictList.get(i)] *)
Fixpoint keyed_get (m : dictlist) (i : json) : option entry :=
  match m with
  | [] => None
  | (j, e) :: m' => if key_eqb j i then Some e else keyed_get m' i
  end.

(** The loop over the fields of one element, with the call on a list
    written as [makeDictList]. *)
Fixpoint fields_loop (its : list (string * json)) (e : entry) : result entry :=
  match its with
  | [] => Ok e
  | (k, d1) :: its' =>
      match d1 with
      | JList l =>
          match makeDictList l with
          | Raise ex => Raise ex
          | Ok nested => fields_loop its' (field_set e k (Keyed nested))
          end
      | _ => fields_loop its' e
      end
  end.

(** The id of an element, when it is a record that has one. *)
Definition id_of (d : json) : option json :=
  match d with
  | JDict items => dict_get items "id"
  | _ => None
  end.

(** The elements [makeDictList] can turn into entries: records with an id
    that can be a key, in which every list holds such records again.
    Records inside records are not looked at. *)
Fixpoint convertible (d : json) : bool :=
  match d with
  | JDict items =>
      match dict_get items "id" with
      | Some i => hashable i
      | None => false
      end
      && (fix fields (its : list (string * json)) : bool :=
            match its with
            | [] => true
            | (_, d1) :: its' =>
                match d1 with
                | JList l =>
                    (fix all (l : list json) : bool :=
                       match l with
                       | [] => true
                       | x :: l' => convertible x && all l'
                       end) l
                | _ => true
                end && fields its'
            end) items
  | _ => false
  end.

(** The exceptions [makeDictList] can end in. *)
Definition conversion_error (ex : exn) : Prop :=
  ex = KeyError "id" ∨ ex = TypeError ∨ ∃ msg, ex = ValueError msg.

(** What a field of an element becomes in its entry: a list becomes the
    dict built from it, any other value stays. *)
Definition field_form (v : json) (f : dval) : Prop :=
  match v with
  | JList l => ∃ m, makeDictList l = Ok m ∧ f = Keyed m
  | _ => f = Plain v
  end.

(** The entry of an element [d], with its key: the key is [d['id']], the
    entry has the fields of [d] other than ['id'], in their order. *)
Definition entry_form (d : json) (ie : json * entry) : Prop :=
  ∃ items, d = JDict items ∧ dict_get items "id" = Some ie.1
    ∧ Forall2 (λ kv f, f.1 = kv.1 ∧ field_form kv.2 f.2)
        (filter (λ kv, kv.1 ≠ "id") items) ie.2.

(** Two elements with equal ids. *)
Definition same_id (d d' : json) : bool :=
  match id_of d, id_of d' with
  | Some i, Some j => key_eqb i j
  | _, _ => false
  end.

(** No two elements of the list have equal ids. *)
Fixpoint distinct_ids (data : list json) : bool :=
  match data with
  | [] => true
  | d :: data' => forallb (λ d', negb (same_id d d')) data' && distinct_ids data'
  end.

(** The key a value is, up to [==]. *)
Definition key_class (a : json) : option (unit + Z + string) :=
  match a with
  | JNull => Some (inl (inl tt))
  | JBool b => Some (inl (inr (if b then 1 else 0)))
  | JInt n => Some (inl (inr n))
  | JStr s => Some (inr s)
  | _ => None
  end.

(** What holds of one round of the loop: it gives an entry exactly for a
    [convertible] element, and raises one of the three exceptions
    otherwise. *)
Definition entry_spec (d : json) : Prop :=
  ((∃ r, makeDictEntry d = Ok r) ↔ convertible d = true)
  ∧ (∀ ex, makeDictEntry d = Raise ex → conversion_error ex).
(** ** Reading a computation step by step *)

Ltac unfold_monad :=
  unfold bind, gets, modify, ret, raise in *.

Ltac unfold_dispatch :=
  unfold run_op, get, post, put, delete, getCached, invalidate,
    session_request, exchange, cookie_getitem, cache_getitem, resp_json in *;
  unfold_monad.

Ltac case_step :=
  match goal with
  | |- context [match ?x with _ => _ end] => destruct x eqn:?
  | H : context [match ?x with _ => _ end] |- _ => destruct x eqn:?
  end.

Lemma require_id_Some i msg w : require_id (Some i) msg w = (Ok i, w).
Proof. reflexivity. Qed.

Lemma bind_ok {A B} (m : M A) (k : A → M B) a w w' :
  m w = (Ok a, w') → bind m k w = k a w'.
Proof. intros H. unfold bind. by rewrite H. Qed.

(** ** Fail-fast on a missing identifier *)

(** C6: every single-item get, update and delete called with [None] as
    identifier raises [ValueError] and leaves the whole state as it was:
    no exchange is added to the log, and cache, cookies and headers are
    untouched. *)
Theorem missing_id_fails_fast (c : IdCall) (w : World) :
  idcall_id c = None →
  ∃ msg, run_idcall c w = (Raise (ValueError msg), w).
Proof.
  intros Hid.
  destruct c as [g i | d i | u]; simpl in Hid; subst.
  - destruct g; eexists; reflexivity.
  - destruct d; eexists; reflexivity.
  - destruct u; simpl in Hid; subst; eexists; reflexivity.
Qed.

Lemma missing_id_fails_fast_witness :
  ∃ msg,
    run_idcall (CallUpdate (UpdateOptColumn None (Some "n") None None None None None))
      (logged_in "t0" true (scripted [] (ok_json JNull)))
    = (Raise (ValueError msg), logged_in "t0" true (scripted [] (ok_json JNull))).
Proof.
  apply (missing_id_fails_fast
           (CallUpdate (UpdateOptColumn None (Some "n") None None None None None))).
  reflexivity.
Defined.

(** ** What one dispatch operation does *)

Lemma no_token_raises (o : Op) (w : World) :
  is_dispatch o = true →
  cookies w !! "CSRF-TOKEN" = None →
  run_op o w = (Raise (KeyError "CSRF-TOKEN"), w).
Proof.
  intros Hd Hc. destruct o; try discriminate; unfold_dispatch;
    simpl; rewrite Hc; reflexivity.
Qed.

Lemma dispatch_run (o : Op) (w : World) (tok : string) :
  is_dispatch o = true →
  cookies w !! "CSRF-TOKEN" = Some tok →
  run_op o w =
    let resp := answer o tok w in
    let w1 := after_exchange o tok w in
    if (400 <=? status_code resp)%Z
    then (Raise (Exception (request_prefix +:+ error_detail o resp)), w1)
    else (outcome o resp,
          if is_mutation o then invalidated (op_endpoint o) w1 else w1).
Proof.
  intros Hd Hc.
  destruct o; try discriminate; unfold_dispatch; simpl; rewrite Hc; simpl;
    unfold answer, after_exchange, op_request, url_of, invalidated, outcome,
      with_cache, with_headers; simpl;
    repeat (case_step; simplify_eq/=; try reflexivity).
Qed.

Lemma RequestError_intro detail :
  is_RequestError (Exception (request_prefix +:+ detail)).
Proof. by exists detail. Qed.

Lemma outcome_not_RequestError o resp : ¬ raises_RequestError (outcome o resp).
Proof.
  unfold outcome, raises_RequestError, is_RequestError.
  destruct o; try (intros []; fail); destruct (json_body resp);
    try (intros []; fail); intros [d Hd]; discriminate.
Qed.

Lemma invalidated_log E w : log (invalidated E w) = log w.
Proof. unfold invalidated. by case_match. Qed.

Lemma invalidated_cached E w : cached (invalidated E w) = cached w.
Proof. unfold invalidated. by case_match. Qed.

Lemma invalidated_api E w : api (invalidated E w) = api w.
Proof. unfold invalidated. by case_match. Qed.

Lemma invalidated_other E E' w :
  E ≠ E' → cache (invalidated E w) !! E' = cache w !! E'.
Proof.
  intros Hne. unfold invalidated. case_match; [|done].
  simpl. by rewrite lookup_insert_ne.
Qed.

Lemma dispatch_log (o : Op) (w : World) (tok : string) :
  is_dispatch o = true →
  cookies w !! "CSRF-TOKEN" = Some tok →
  log (run_op o w).2 = (log w ++ [(op_request o tok w, answer o tok w)])%list.
Proof.
  intros Hd Hc. rewrite (dispatch_run o w tok Hd Hc). cbv zeta.
  destruct (400 <=? _)%Z; simpl; [done|].
  destruct (is_mutation o); [by rewrite invalidated_log|done].
Qed.

(** The exchange a dispatch operation added to the log is the one of
    [op_request] and [answer]. *)
Lemma dispatch_exchange (o : Op) (w : World) (req : Request) (resp : Response) :
  is_dispatch o = true →
  log (run_op o w).2 = (log w ++ [(req, resp)])%list →
  ∃ tok, cookies w !! "CSRF-TOKEN" = Some tok
         ∧ req = op_request o tok w ∧ resp = answer o tok w.
Proof.
  intros Hd Hlog. destruct (cookies w !! "CSRF-TOKEN") as [tok|] eqn:Hc.
  - exists tok. rewrite (dispatch_log o w tok Hd Hc) in Hlog.
    apply app_inv_head in Hlog. by injection Hlog as -> ->.
  - rewrite (no_token_raises o w Hd Hc) in Hlog. simpl in Hlog.
    apply (f_equal length) in Hlog. rewrite length_app in Hlog.
    simpl in Hlog. lia.
Qed.

Lemma in_keys_true E (c : gmap string json) :
  in_keys E c = true ↔ is_Some (c !! E).
Proof. unfold in_keys. apply bool_decide_eq_true. Qed.

Lemma in_keys_false E (c : gmap string json) :
  in_keys E c = false ↔ c !! E = None.
Proof.
  unfold in_keys. rewrite bool_decide_eq_false. by rewrite eq_None_not_Some.
Qed.

(** [getCached] is a hit that leaves everything as it is, or the miss path. *)
Lemma getCached_run (E : string) (w : World) :
  getCached E w =
    if cached w then
      if present E w then (Ok (default JNull (cache w !! E)), w)
      else fetch_and_store E w
    else get E w.
Proof.
  unfold getCached, fetch_and_store, present, cache_getitem.
  unfold_monad. destruct (cached w); [|done].
  destruct (in_keys E (cache w) && _)%bool eqn:Hhit.
  - apply andb_prop in Hhit as [[v Hv]%in_keys_true _]. by rewrite Hv.
  - destruct (get E w) as [[v|e] w']; [|done].
    simpl. by rewrite lookup_insert_eq.
Qed.

(** ** The error threshold *)

(** C3: get, post, put and delete, called with the token in the cookie
    jar, send their request and read the status code of the response the
    service gives: the operation raises the request exception exactly
    when that status code is 400 or more; below 400, get, post and put
    return what [json()] gives for the response and delete returns [True]
    whatever the body is. *)
Theorem error_threshold (o : Op) (w : World) (tok : string) :
  is_dispatch o = true →
  cookies w !! "CSRF-TOKEN" = Some tok →
  let resp := answer o tok w in
  log (run_op o w).2 = (log w ++ [(op_request o tok w, resp)])%list
  ∧ (raises_RequestError (run_op o w).1 ↔ 400 ≤ status_code resp)
  ∧ (status_code resp < 400 →
     (run_op o w).1 =
       match o with
       | ODelete _ => Ok (JBool true)
       | _ => match json_body resp with
              | Some v => Ok v
              | None => Raise JSONDecodeError
              end
       end).
Proof.
  intros Hd Hc. cbv zeta. split; [by apply dispatch_log|].
  rewrite (dispatch_run o w tok Hd Hc). cbv zeta.
  destruct (Z.leb_spec 400 (status_code (answer o tok w))) as [Hge|Hlt]; simpl.
  - split; [|lia]. split; [done|]. intros _. apply RequestError_intro.
  - split.
    + split; [|lia]. intros H. by apply outcome_not_RequestError in H.
    + intros _. reflexivity.
Qed.

Lemma error_threshold_witness :
  let client (resp : Response) :=
    logged_in "t0" true (scripted [resp] (ok_json JNull)) in
  raises_RequestError
    (run_op (OGet "items") (client (failed 400 "no"))).1
  ∧ (run_op (OGet "items") (client (mkResponse 399 "" (Some (JList [])) []))).1
    = Ok (JList [])
  ∧ (run_op (OPut "items" (JDict [])) (client (ok_json (JDict [])))).1
    = Ok (JDict [])
  ∧ raises_RequestError
      (run_op (OPost "items" (JDict [])) (client (failed 500 "oops"))).1
  ∧ (run_op (ODelete "items/5") (client (mkResponse 204 "" None []))).1
    = Ok (JBool true)
  ∧ ∃ req,
      log (run_op (ODelete "items/5") (client (failed 404 ""))).2
      = [(req, failed 404 "")]
      ∧ raises_RequestError
          (run_op (ODelete "items/5") (client (failed 404 ""))).1.
Proof.
  intros client. split_and!.
  - apply (error_threshold (OGet "items") (client (failed 400 "no")) "t0");
      [reflexivity|reflexivity|]. vm_compute. discriminate.
  - apply (error_threshold (OGet "items")
             (client (mkResponse 399 "" (Some (JList [])) [])) "t0");
      reflexivity.
  - apply (error_threshold (OPut "items" (JDict []))
             (client (ok_json (JDict []))) "t0"); reflexivity.
  - apply (error_threshold (OPost "items" (JDict []))
             (client (failed 500 "oops")) "t0");
      [reflexivity|reflexivity|]. vm_compute. discriminate.
  - apply (error_threshold (ODelete "items/5")
             (client (mkResponse 204 "" None [])) "t0"); reflexivity.
  - destruct (error_threshold (ODelete "items/5") (client (failed 404 "")) "t0"
                eq_refl eq_refl) as (Hlog & Hraise & _).
    eexists. split; [exact Hlog|]. apply Hraise. vm_compute. discriminate.
Defined.

(** ** Failures leave the cache alone *)

(** C5: an operation that raises the request exception leaves the cache
    map as it was: a [getCached] whose get fails stores nothing and keeps
    whatever the key held, and a failed post, put or delete invalidates
    nothing. *)
Theorem failure_keeps_cache (o : Op) (w : World) :
  raises_RequestError (run_op o w).1 →
  cache (run_op o w).2 = cache w.
Proof.
  assert (Hdisp : ∀ o', is_dispatch o' = true →
            raises_RequestError (run_op o' w).1 →
            cache (run_op o' w).2 = cache w).
  { intros o' Hd. destruct (cookies w !! "CSRF-TOKEN") as [tok|] eqn:Hc.
    - rewrite (dispatch_run o' w tok Hd Hc). cbv zeta.
      destruct (400 <=? _)%Z; simpl; [done|].
      intros H. by apply outcome_not_RequestError in H.
    - by rewrite (no_token_raises o' w Hd Hc). }
  destruct o; try (by apply Hdisp).
  simpl. rewrite getCached_run.
  destruct (cached w); [|by apply (Hdisp (OGet cacheId))].
  destruct (present cacheId w); [done|].
  unfold fetch_and_store.
  specialize (Hdisp (OGet cacheId) eq_refl). simpl in Hdisp.
  destruct (get cacheId w) as [[v|e] w']; simpl in *; [done|]. exact Hdisp.
Qed.

Lemma failure_keeps_cache_witness :
  let w := (run_op (OGetCached "items")
              (logged_in "t0" true
                 (scripted [ok_json (JList []); failed 500 "oops"] (ok_json JNull)))).2 in
  cache (run_op (OPost "items" (JDict [])) w).2 = cache w.
Proof.
  intros w. apply (failure_keeps_cache (OPost "items" (JDict [])) w).
  vm_compute. by exists "b'oops'".
Defined.

(** ** Invalidation is by exact key *)

(** C7: a post, put or delete against endpoint [E] leaves the cache entry
    of every other endpoint string as it was; so a mutation against "E/5"
    does not clear what is cached at "E". *)
Theorem mutation_frames_other_keys (o : Op) (w : World) (E' : string) :
  is_mutation o = true →
  op_endpoint o ≠ E' →
  cache (run_op o w).2 !! E' = cache w !! E'.
Proof.
  intros Hm Hne.
  assert (Hd : is_dispatch o = true) by (by destruct o).
  destruct (cookies w !! "CSRF-TOKEN") as [tok|] eqn:Hc.
  - rewrite (dispatch_run o w tok Hd Hc). cbv zeta. rewrite Hm.
    destruct (400 <=? _)%Z; simpl; [done|].
    by rewrite invalidated_other.
  - by rewrite (no_token_raises o w Hd Hc).
Qed.

Lemma mutation_frames_other_keys_witness :
  let w := (run_op (OGetCached "E")
              (logged_in "t0" true (scripted [ok_json (JList [JInt 5])] (ok_json JNull)))).2 in
  cache (run_op (ODelete "E/5") w).2 !! "E" = cache w !! "E"
  ∧ cache w !! "E" = Some (JList [JInt 5]).
Proof.
  intros w. split.
  - apply (mutation_frames_other_keys (ODelete "E/5") w "E"); [reflexivity|discriminate].
  - reflexivity.
Defined.

(** ** The token is read again on every call *)

(** C8: the request that get, post, put or delete sends carries, as its
    X-CSRF-TOKEN header, the value the cookie jar holds at the moment of the
    call, whatever [self.headers] held from construction or from an earlier
    call. *)
Theorem token_is_reread (o : Op) (w : World) (tok : string) :
  is_dispatch o = true →
  cookies w !! "CSRF-TOKEN" = Some tok →
  ∃ req resp,
    log (run_op o w).2 = (log w ++ [(req, resp)])%list
    ∧ r_method req = op_method o
    ∧ r_url req = url_of w (op_endpoint o)
    ∧ r_headers req !! "X-CSRF-TOKEN" = Some (Some tok).
Proof.
  intros Hd Hc. exists (op_request o tok w), (answer o tok w).
  split_and!.
  - by apply dispatch_log.
  - done.
  - done.
  - destruct o; try discriminate; simpl; by simplify_map_eq.
Qed.

Lemma token_is_reread_witness :
  let w0 := logged_in "t0" true
              (scripted [mkResponse 200 "" (Some (JList []))
                           [("CSRF-TOKEN", Some "t1")]] (ok_json JNull)) in
  let w := (run_op (OGet "items") w0).2 in
  headers w !! "X-CSRF-TOKEN" = Some (Some "t0")
  ∧ ∃ req resp,
      log (run_op (OPost "items" (JDict [])) w).2 = (log w ++ [(req, resp)])%list
      ∧ r_method req = POST
      ∧ r_url req = url_of w "items"
      ∧ r_headers req !! "X-CSRF-TOKEN" = Some (Some "t1").
Proof.
  intros w0 w. split; [reflexivity|].
  apply (token_is_reread (OPost "items" (JDict [])) w "t1"); reflexivity.
Defined.

(** ** What the request exception says *)

Lemma prefix_refl s : String.prefix s s = true.
Proof.
  induction s as [|c s IH]; [done|]. simpl.
  destruct (Ascii.ascii_dec c c); [exact IH|done].
Qed.

Lemma contains_unfold sub s :
  contains sub s =
    (String.prefix sub s ||
     match s with EmptyString => false | String _ s' => contains sub s' end)%bool.
Proof. by destruct s. Qed.

Lemma contains_refl s : contains s s = true.
Proof. rewrite contains_unfold. by rewrite prefix_refl. Qed.

Lemma contains_app_r p s : contains s (p +:+ s) = true.
Proof.
  induction p as [|c p IH].
  - apply contains_refl.
  - rewrite contains_unfold. change (String c p +:+ s) with (String c (p +:+ s)).
    cbv beta iota. rewrite IH. apply orb_true_r.
Qed.

Lemma repr_byte_plain c :
  plain_byte c = true → repr_byte "'" c = String c "".
Proof.
  destruct c as [[] [] [] [] [] [] [] []]; vm_compute; congruence.
Qed.

Lemma plain_no_quote s : plain s = true → has_byte "'" s = false.
Proof.
  unfold plain, has_byte. induction s as [|c s IH]; simpl; [done|].
  intros [Hc Hs]%andb_prop. rewrite (IH Hs), orb_false_r.
  destruct c as [[] [] [] [] [] [] [] []]; vm_compute in Hc |- *; congruence.
Qed.

Lemma repr_bytes_body_plain s :
  plain s = true → repr_bytes_body "'" s = s.
Proof.
  unfold plain. induction s as [|c s IH]; simpl; [done|].
  intros [Hc Hs]%andb_prop. by rewrite (repr_byte_plain c Hc), (IH Hs).
Qed.

Lemma bytes_repr_plain s :
  plain s = true → bytes_repr s = "b'" +:+ s +:+ "'".
Proof.
  intros Hp. unfold bytes_repr.
  rewrite (plain_no_quote s Hp). simpl. by rewrite (repr_bytes_body_plain s Hp).
Qed.

(** C4, as stated, fails: a post answered with status 500 and content
    "oops" raises an exception whose message holds the printed content and
    not the status code. *)
Lemma post_error_omits_status :
  let w := logged_in "t0" true (scripted [failed 500 "oops"] (ok_json JNull)) in
  map snd (log (run_op (OPost "items" (JDict [])) w).2) = [failed 500 "oops"]
  ∧ (run_op (OPost "items" (JDict [])) w).1
    = Raise (Exception "Request unsuccessfully: b'oops'")
  ∧ contains (str_int 500) "Request unsuccessfully: b'oops'" = false.
Proof. vm_compute. done. Qed.

(** C4, amended: when the status is 400 or more, get, put and delete raise
    an exception whose message is the fixed prefix followed by the status
    code in decimal and nothing else; post raises one whose message is the
    prefix followed by the printed form of the raw response content
    ([b'...'], which holds the content as it is when the content is
    printable ASCII without quote or backslash) and not by the status
    code. *)
Theorem request_error_message (o : Op) (w : World) (req : Request)
  (resp : Response) :
  is_dispatch o = true →
  log (run_op o w).2 = (log w ++ [(req, resp)])%list →
  400 ≤ status_code resp →
  (run_op o w).1 =
    Raise (Exception
             (request_prefix +:+
                match o with
                | OPost _ _ => bytes_repr (content resp)
                | _ => str_int (status_code resp)
                end))
  ∧ (match o with
     | OPost _ _ =>
         plain (content resp) = true →
         bytes_repr (content resp) = "b'" +:+ content resp +:+ "'"
     | _ =>
         ∀ msg, (run_op o w).1 = Raise (Exception msg) →
                contains (str_int (status_code resp)) msg = true
     end).
Proof.
  intros Hd Hlog Hs.
  destruct (dispatch_exchange o w req resp Hd Hlog) as (tok & Hc & _ & ->).
  rewrite (dispatch_run o w tok Hd Hc). cbv zeta.
  destruct (Z.leb_spec 400 (status_code (answer o tok w))); [|lia]. simpl.
  split.
  - by destruct o.
  - destruct o; try discriminate; simpl;
      try (intros msg [= <-]; apply contains_app_r).
    apply bytes_repr_plain.
Qed.

Lemma request_error_message_witness :
  let w := logged_in "t0" true (scripted [failed 403 "no"] (ok_json JNull)) in
  ((run_op (OPut "items" (JDict [])) w).1
   = Raise (Exception "Request unsuccessfully: 403")
   ∧ ∀ msg, (run_op (OPut "items" (JDict [])) w).1 = Raise (Exception msg) →
            contains "403" msg = true)
  ∧ (run_op (OPost "items" (JDict [])) w).1
    = Raise (Exception "Request unsuccessfully: b'no'").
Proof.
  intros w. split.
  - apply (request_error_message (OPut "items" (JDict [])) w
             (op_request (OPut "items" (JDict [])) "t0" w) (failed 403 "no"));
      [reflexivity|reflexivity|vm_compute; discriminate].
  - apply (request_error_message (OPost "items" (JDict [])) w
             (op_request (OPost "items" (JDict [])) "t0" w) (failed 403 "no"));
      [reflexivity|reflexivity|vm_compute; discriminate].
Defined.

(** ** The keys of the cache *)

Lemma invalidated_cache E w :
  cache (invalidated E w) =
    if (cached w && in_keys E (cache w))%bool
    then <[E := JNull]> (cache w) else cache w.
Proof. unfold invalidated. by case_match. Qed.

Lemma dom_insert_present E v (c : gmap string json) :
  is_Some (c !! E) → dom (<[E := v]> c) = dom c.
Proof.
  rewrite <- elem_of_dom. intros H. rewrite dom_insert_L.
  apply subseteq_union_1_L. by apply singleton_subseteq_l.
Qed.

(** The cache after a dispatch operation: as before, unless the operation
    is a mutation that passed the status test. *)
Lemma dispatch_cache (o : Op) (w : World) :
  is_dispatch o = true →
  cache (run_op o w).2 = cache w
  ∨ (is_mutation o = true ∧ cache (run_op o w).2 = cache (invalidated (op_endpoint o) w)).
Proof.
  intros Hd. destruct (cookies w !! "CSRF-TOKEN") as [tok|] eqn:Hc.
  - rewrite (dispatch_run o w tok Hd Hc). cbv zeta.
    destruct (400 <=? _)%Z; simpl; [by left|].
    destruct (is_mutation o); [|by left]. right. split; [done|].
    by rewrite !invalidated_cache.
  - rewrite (no_token_raises o w Hd Hc). by left.
Qed.

Lemma mutation_ok_cache (o : Op) (w : World) v :
  is_mutation o = true →
  (run_op o w).1 = Ok v →
  cache (run_op o w).2 = cache (invalidated (op_endpoint o) w).
Proof.
  intros Hm. assert (Hd : is_dispatch o = true) by (by destruct o).
  destruct (cookies w !! "CSRF-TOKEN") as [tok|] eqn:Hc.
  - rewrite (dispatch_run o w tok Hd Hc). cbv zeta. rewrite Hm.
    destruct (400 <=? _)%Z; simpl; [done|]. intros _.
    by rewrite !invalidated_cache.
  - by rewrite (no_token_raises o w Hd Hc).
Qed.

Lemma dispatch_dom (o : Op) (w : World) :
  is_dispatch o = true → dom (cache (run_op o w).2) = dom (cache w).
Proof.
  intros Hd. destruct (dispatch_cache o w Hd) as [->|[_ ->]]; [done|].
  rewrite invalidated_cache. destruct (cached w && _)%bool eqn:Hb; [|done].
  apply andb_prop in Hb as [_ Hk%in_keys_true]. by apply dom_insert_present.
Qed.

(** get never reads or writes the cache. *)
Lemma get_with_cache (E : string) (c : gmap string json) (w : World) :
  get E (with_cache c w) = ((get E w).1, with_cache c (get E w).2).
Proof.
  change (get E) with (run_op (OGet E)).
  destruct (cookies w !! "CSRF-TOKEN") as [tok|] eqn:Hc.
  - rewrite (dispatch_run (OGet E) w tok eq_refl Hc).
    rewrite (dispatch_run (OGet E) (with_cache c w) tok eq_refl Hc).
    cbv zeta. unfold answer, after_exchange, op_request, url_of; simpl.
    by destruct (400 <=? _)%Z.
  - rewrite (no_token_raises (OGet E) w eq_refl Hc).
    by rewrite (no_token_raises (OGet E) (with_cache c w) eq_refl Hc).
Qed.

Lemma get_cache (E : string) (w : World) : cache (get E w).2 = cache w.
Proof.
  destruct (dispatch_cache (OGet E) w eq_refl) as [H|[? _]]; [exact H|done].
Qed.

Lemma getCached_dom (E : string) (w : World) :
  dom (cache w) ⊆ dom (cache (getCached E w).2).
Proof.
  rewrite getCached_run. destruct (cached w).
  - destruct (present E w); [done|]. unfold fetch_and_store.
    pose proof (get_cache E w) as Hg.
    destruct (get E w) as [[v|e] w']; simpl in *.
    + rewrite dom_insert_L, Hg. set_solver.
    + by rewrite Hg.
  - by rewrite get_cache.
Qed.

(** A key mapped to [None] is a miss. *)
Lemma present_None E w :
  cache w !! E = Some JNull ∨ cache w !! E = None → present E w = false.
Proof.
  unfold present. intros [H|H]; rewrite H; simpl.
  - apply andb_false_r.
  - apply andb_false_intro1. by apply in_keys_false.
Qed.

(** C10: the keys of the cache map.  No operation removes a key and get,
    post, put and delete add none, so keys come from [getCached] only.  A
    post, put or delete that returns, with caching on, overwrites the value
    of its endpoint with [None] when the endpoint is a key, and the key
    stays; against an endpoint that is no key it leaves the map as it is.
    [getCached] on a key mapped to [None] goes the miss path (a get, then
    the entry is overwritten), with the same result and, when the get
    returns, the same final state as if the key were missing. *)
Theorem cache_keys_discipline (o : Op) (w : World) :
  dom (cache w) ⊆ dom (cache (run_op o w).2)
  ∧ (is_dispatch o = true → dom (cache (run_op o w).2) = dom (cache w))
  ∧ (is_mutation o = true → cached w = true →
     is_Some (cache w !! op_endpoint o) →
     (∃ v, (run_op o w).1 = Ok v) →
     cache (run_op o w).2 = <[op_endpoint o := JNull]> (cache w))
  ∧ (is_mutation o = true → cache w !! op_endpoint o = None →
     cache (run_op o w).2 = cache w)
  ∧ (is_dispatch o = false → cached w = true →
     cache w !! op_endpoint o = Some JNull →
     let w_missing := with_cache (base.delete (op_endpoint o) (cache w)) w in
     run_op o w = fetch_and_store (op_endpoint o) w
     ∧ run_op o w_missing = fetch_and_store (op_endpoint o) w_missing
     ∧ (run_op o w).1 = (run_op o w_missing).1
     ∧ ((∃ v, (run_op o w).1 = Ok v) → (run_op o w).2 = (run_op o w_missing).2)).
Proof.
  split_and!.
  - destruct (is_dispatch o) eqn:Hd.
    + by rewrite dispatch_dom.
    + destruct o; try discriminate. apply getCached_dom.
  - apply dispatch_dom.
  - intros Hm Hc Hk [v Hv]. rewrite (mutation_ok_cache o w v Hm Hv).
    rewrite invalidated_cache, Hc. by apply in_keys_true in Hk as ->.
  - intros Hm Hk. assert (Hd : is_dispatch o = true) by (by destruct o).
    destruct (dispatch_cache o w Hd) as [H|[_ H]]; [exact H|].
    rewrite H, invalidated_cache. apply in_keys_false in Hk as ->.
    by rewrite andb_false_r.
  - intros Hd Hc Hk. destruct o as [| | | |E]; try discriminate. simpl in *.
    assert (H1 : getCached E w = fetch_and_store E w).
    { rewrite getCached_run, Hc, present_None; [done|by left]. }
    assert (H2 : getCached E (with_cache (base.delete E (cache w)) w)
                 = fetch_and_store E (with_cache (base.delete E (cache w)) w)).
    { rewrite getCached_run. simpl. rewrite Hc, present_None; [done|].
      right. simpl. apply lookup_delete_eq. }
    split_and!; [exact H1|exact H2| |]; rewrite H1, H2; unfold fetch_and_store;
      rewrite get_with_cache; pose proof (get_cache E w) as Hg;
      destruct (get E w) as [[v|e] w']; simpl in *; try done.
    + intros _. unfold with_cache; simpl. by rewrite insert_delete_eq, Hg.
    + by intros [? ?].
Qed.

Lemma cache_keys_discipline_witness :
  let w0 := logged_in "t0" true
              (scripted [ok_json (JList []); ok_json (JDict [("id", JInt 1)]);
                         ok_json (JList [JInt 1])] (ok_json JNull)) in
  let w1 := (run_op (OGetCached "items") w0).2 in
  let w2 := (run_op (OPost "items" (JDict [])) w1).2 in
  cache w2 = <["items" := JNull]> (cache w1)
  ∧ cache (run_op (ODelete "items/1") w1).2 = cache w1
  ∧ run_op (OGetCached "items") w2 = fetch_and_store "items" w2
  ∧ dom (cache (run_op (OGet "other") w2).2) = dom (cache w2).
Proof.
  intros w0 w1 w2. split_and!.
  - apply (cache_keys_discipline (OPost "items" (JDict [])) w1);
      [reflexivity|reflexivity|by eexists|by eexists].
  - apply (cache_keys_discipline (ODelete "items/1") w1); reflexivity.
  - apply (cache_keys_discipline (OGetCached "items") w2); reflexivity.
  - apply (cache_keys_discipline (OGet "other") w2); reflexivity.
Defined.

(** ** Hits and misses *)

(** [api] and [cached] are fixed at construction. *)
Lemma run_op_fixed (o : Op) (w : World) :
  api (run_op o w).2 = api w ∧ cached (run_op o w).2 = cached w.
Proof.
  assert (Hdisp : ∀ o', is_dispatch o' = true →
            api (run_op o' w).2 = api w ∧ cached (run_op o' w).2 = cached w).
  { intros o' Hd. destruct (cookies w !! "CSRF-TOKEN") as [tok|] eqn:Hc.
    - rewrite (dispatch_run o' w tok Hd Hc). cbv zeta.
      destruct (400 <=? _)%Z; simpl; [done|].
      destruct (is_mutation o'); [|done].
      by rewrite invalidated_api, invalidated_cached.
    - by rewrite (no_token_raises o' w Hd Hc). }
  destruct o as [| | | |E]; try (by apply Hdisp).
  simpl. rewrite getCached_run.
  specialize (Hdisp (OGet E) eq_refl). simpl in Hdisp.
  destruct (cached w) eqn:Hc; [|exact Hdisp].
  destruct (present E w); [done|]. unfold fetch_and_store.
  destruct (get E w) as [[v|e] w']; simpl in *; exact Hdisp.
Qed.

Lemma present_lookup E w v :
  cache w !! E = Some v → is_None v = false → present E w = true.
Proof.
  intros Hv Hn. unfold present. rewrite Hv. simpl. rewrite Hn.
  rewrite andb_true_r. apply in_keys_true. by eexists.
Qed.

Lemma present_inv E w :
  present E w = true → ∃ v, cache w !! E = Some v ∧ is_None v = false.
Proof.
  unfold present. intros [[v Hv]%in_keys_true Hn]%andb_prop.
  exists v. split; [done|]. rewrite Hv in Hn. simpl in Hn.
  by apply negb_true_iff.
Qed.

(** An entry that is present survives every operation but a mutation
    against its own endpoint. *)
Lemma entry_stable (o : Op) (w : World) (E : string) (v : json) :
  cache w !! E = Some v → is_None v = false →
  ¬ (is_mutation o = true ∧ op_endpoint o = E) →
  cache (run_op o w).2 !! E = Some v.
Proof.
  intros Hv Hn Hno.
  destruct (is_dispatch o) eqn:Hd.
  - destruct (dispatch_cache o w Hd) as [->|[Hm ->]]; [done|].
    rewrite invalidated_other; [done|]. intros Heq. by apply Hno.
  - destruct o as [| | | |E']; try discriminate. simpl.
    rewrite getCached_run. destruct (cached w); [|by rewrite get_cache].
    destruct (present E' w) eqn:Hp; [done|]. unfold fetch_and_store.
    pose proof (get_cache E' w) as Hg.
    destruct (get E' w) as [[v'|e] w']; simpl in *; [|by rewrite Hg].
    rewrite Hg. rewrite lookup_insert_ne; [done|].
    intros ->. by rewrite (present_lookup E w v) in Hp.
Qed.

Lemma entry_stable_ops (os : list Op) (w : World) (E : string) (v : json) :
  cache w !! E = Some v → is_None v = false →
  Forall (λ o, ¬ (is_mutation o = true ∧ op_endpoint o = E)) os →
  cache (run_ops os w) !! E = Some v ∧ cached (run_ops os w) = cached w.
Proof.
  intros Hv Hn Hos. revert w Hv.
  induction Hos as [|o os Ho Hos IH]; intros w Hv; simpl; [done|].
  destruct (IH (run_op o w).2) as [H1 H2]; [by apply entry_stable|].
  split; [exact H1|]. rewrite H2. apply run_op_fixed.
Qed.

Lemma getCached_ok_stored (E : string) (w : World) (v : json) :
  cached w = true → (getCached E w).1 = Ok v →
  cache (getCached E w).2 !! E = Some v.
Proof.
  intros Hc. rewrite getCached_run, Hc.
  destruct (present E w) eqn:Hp.
  - apply present_inv in Hp as (v' & Hv' & _). simpl. rewrite Hv'. simpl.
    by intros [= <-].
  - unfold fetch_and_store. destruct (get E w) as [[v'|e] w']; simpl; [|done].
    intros [= <-]. apply lookup_insert_eq.
Qed.

(** C2: with caching on, a [getCached] that misses calls get, stores what
    get returns under the key and returns it; and once a [getCached] of [E]
    has returned a body (a list or a dict, an empty one too; any value but
    [None]), a later [getCached] of [E], after any operations that are not
    mutations against [E], returns the same value and changes nothing: the
    log of exchanges gets no new entry. *)
Theorem cache_hit_and_miss (E : string) (w : World) :
  cached w = true →
  (present E w = false →
   getCached E w =
     match get E w with
     | (Ok v, w') => (Ok v, with_cache (<[E := v]> (cache w')) w')
     | (Raise e, w') => (Raise e, w')
     end)
  ∧ (∀ v os,
       (getCached E w).1 = Ok v →
       is_None v = false →
       Forall (λ o, ¬ (is_mutation o = true ∧ op_endpoint o = E)) os →
       getCached E (run_ops os (getCached E w).2)
       = (Ok v, run_ops os (getCached E w).2)).
Proof.
  intros Hc. split.
  - intros Hp. by rewrite getCached_run, Hc, Hp.
  - intros v os Hok Hn Hos.
    pose proof (getCached_ok_stored E w v Hc Hok) as Hst.
    destruct (entry_stable_ops os _ E v Hst Hn Hos) as [Hv Hc2].
    rewrite getCached_run, Hc2.
    destruct (run_op_fixed (OGetCached E) w) as [_ Hc1]. simpl in Hc1.
    rewrite Hc1, Hc, (present_lookup E _ v Hv Hn). by rewrite Hv.
Qed.

Lemma cache_hit_and_miss_witness :
  let w := logged_in "t0" true
             (scripted [ok_json (JList []); ok_json (JList [JInt 7])] (failed 500 "")) in
  let os := [OGetCached "items"; OGet "items/7"; OPost "other" (JDict [])] in
  getCached "items" w = (Ok (JList []), (fetch_and_store "items" w).2)
  ∧ getCached "items" (run_ops os (getCached "items" w).2)
    = (Ok (JList []), run_ops os (getCached "items" w).2)
  ∧ length (log (run_ops os (getCached "items" w).2)) = 3%nat.
Proof.
  intros w os.
  destruct (cache_hit_and_miss "items" w eq_refl) as [Hmiss Hhit].
  split_and!.
  - rewrite Hmiss; reflexivity.
  - apply Hhit; [reflexivity|reflexivity|].
    repeat constructor; intros [? ?]; discriminate.
  - reflexivity.
Defined.

(** A JSON [null] body is stored as [None], which is the mark of an
    invalidated entry: the next [getCached] fetches again. *)
Example null_body_is_refetched :
  let w := logged_in "t0" true (scripted [] (ok_json JNull)) in
  (getCached "items" w).1 = Ok JNull
  ∧ length (log (run_ops [OGetCached "items"; OGetCached "items"] w)) = 2%nat.
Proof. by vm_compute. Qed.

(** ** Entries are backed by a completed GET *)

Lemma append_inj_l (s x y : string) : s +:+ x = s +:+ y → x = y.
Proof. induction s as [|c s IH]; simpl; [done|]. intros [= H]. by apply IH. Qed.

Lemma url_inj (a E1 E2 : string) :
  a +:+ "/" +:+ E1 = a +:+ "/" +:+ E2 → E1 = E2.
Proof. intros H%append_inj_l. by injection H. Qed.

(** Every operation either leaves the state as it is (the token is
    missing, or the cache answers) or makes exactly one exchange. *)
Lemma run_op_step (o : Op) (w : World) :
  (run_op o w).2 = w
  ∨ ∃ req resp,
      log (run_op o w).2 = (log w ++ [(req, resp)])%list
      ∧ r_method req = op_method o
      ∧ r_url req = url_of w (op_endpoint o)
      ∧ cache (run_op o w).2 = cache_after o w resp.
Proof.
  destruct (cookies w !! "CSRF-TOKEN") as [tok|] eqn:Hc.
  - destruct (is_dispatch o) eqn:Hd.
    + right. exists (op_request o tok w), (answer o tok w).
      rewrite (dispatch_run o w tok Hd Hc). cbv zeta. unfold cache_after.
      destruct (400 <=? _)%Z; simpl; [done|]. split_and!; try done.
      * destruct (is_mutation o); [by rewrite invalidated_log|done].
      * destruct o; try discriminate; simpl; by rewrite ?invalidated_cache.
    + destruct o as [| | | |E]; try discriminate. simpl.
      rewrite getCached_run. unfold fetch_and_store.
      change (get E w) with (run_op (OGet E) w).
      rewrite (dispatch_run (OGet E) w tok eq_refl Hc). cbv zeta.
      destruct (cached w) eqn:Hcached; [destruct (present E w); [by left|]|];
        right; exists (op_request (OGet E) tok w), (answer (OGet E) tok w);
        unfold cache_after; rewrite Hcached;
        destruct (400 <=? _)%Z; simpl; try done.
      by destruct (json_body _).
  - left. destruct (is_dispatch o) eqn:Hd.
    + by rewrite (no_token_raises o w Hd Hc).
    + destruct o as [| | | |E]; try discriminate. simpl.
      rewrite getCached_run. unfold fetch_and_store.
      change (get E w) with (run_op (OGet E) w).
      rewrite (no_token_raises (OGet E) w eq_refl Hc).
      by destruct (cached w); [destruct (present E w)|].
Qed.

Lemma present_ext E w1 w2 :
  cache w1 !! E = cache w2 !! E → present E w1 = present E w2.
Proof.
  intros H. unfold present, in_keys. by rewrite H.
Qed.

Lemma fetched_extend a E l x :
  fetched_since_mutation a E l →
  ¬ successful_mutation a E x →
  fetched_since_mutation a E (l ++ [x]).
Proof.
  intros (before & g & after & -> & Hg & Hafter) Hx.
  exists before, g, (after ++ [x])%list. split_and!.
  - by rewrite <- app_assoc.
  - done.
  - apply Forall_app. split; [done|]. by constructor.
Qed.

Lemma fetched_new a E l g :
  successful_get a E g → fetched_since_mutation a E (l ++ [g]).
Proof. intros Hg. exists l, g, []. by split_and!. Qed.

Lemma present_invalidated E w w' :
  (cached w = false → cache w = ∅) →
  cache w' = cache (invalidated E w) → present E w' = false.
Proof.
  intros Hoff Hc. apply present_None. rewrite Hc, invalidated_cache.
  destruct (cached w) eqn:Hcached; simpl.
  - destruct (in_keys E (cache w)) eqn:Hk.
    + left. apply lookup_insert_eq.
    + right. by apply in_keys_false.
  - right. by rewrite (Hoff eq_refl).
Qed.

Lemma client_inv_step (o : Op) (w : World) :
  client_inv w → client_inv (run_op o w).2.
Proof.
  intros Hinv. pose proof Hinv as [Hoff Hback].
  destruct (run_op_fixed o w) as [Hapi Hcached].
  destruct (run_op_step o w) as [->|(req & resp & Hlog & Hm & Hu & Hcache)];
    [done|].
  split.
  - rewrite Hcached, Hcache. intros Hc. unfold cache_after.
    rewrite invalidated_cache, Hc. simpl.
    destruct (400 <=? _)%Z; [by apply Hoff|]. destruct o; by apply Hoff.
  - intros E Hp. rewrite Hapi, Hlog.
    (* an entry that this call did not touch stays backed *)
    assert (Hext : cache (run_op o w).2 !! E = cache w !! E →
                   ¬ successful_mutation (api w) E (req, resp) →
                   fetched_since_mutation (api w) E (log w ++ [(req, resp)])).
    { intros Hsame Hnm. apply fetched_extend; [|done].
      apply Hback. by rewrite <- (present_ext E _ _ Hsame). }
    assert (Hnm_get : op_method o = GET →
                      ¬ successful_mutation (api w) E (req, resp)).
    { intros Hg (Hmeth & _). simpl in Hmeth. congruence. }
    assert (Hnm_url : op_endpoint o ≠ E →
                      ¬ successful_mutation (api w) E (req, resp)).
    { intros Hne (_ & Hurl & _). simpl in Hurl. rewrite Hu in Hurl.
      by apply url_inj in Hurl. }
    apply present_inv in Hp as (v & Hv & Hn).
    rewrite Hcache in Hv, Hext. unfold cache_after in Hv, Hext.
    destruct (Z.leb_spec 400 (status_code resp)) as [Hge|Hlt].
    { apply Hext; [done|]. intros (_ & _ & Hs). simpl in Hs. lia. }
    assert (Hmut : ∀ Eo, op_endpoint o = Eo →
              cache (invalidated Eo w) !! E = Some v →
              (cache (invalidated Eo w) !! E = cache w !! E →
               ¬ successful_mutation (api w) E (req, resp) →
               fetched_since_mutation (api w) E (log w ++ [(req, resp)])) →
              fetched_since_mutation (api w) E (log w ++ [(req, resp)])).
    { intros Eo Ho Hv' Hext'. destruct (decide (Eo = E)) as [->|Hne].
      - exfalso.
        pose proof (present_invalidated E w (invalidated E w) Hoff eq_refl) as Hf.
        by rewrite (present_lookup E _ v Hv' Hn) in Hf.
      - apply Hext'; [by apply invalidated_other|]. apply Hnm_url. by rewrite Ho. }
    destruct o as [Eo|Eo d|Eo d|Eo|Eo]; simpl in *.
    + apply Hext; [done|by apply Hnm_get].
    + by apply (Hmut Eo).
    + by apply (Hmut Eo).
    + by apply (Hmut Eo).
    + destruct (cached w); [|apply Hext; [done|by apply Hnm_get]].
      destruct (json_body resp) as [v'|] eqn:Hj;
        [|apply Hext; [done|by apply Hnm_get]].
      destruct (decide (Eo = E)) as [->|Hne].
      * apply fetched_new. unfold successful_get; simpl.
        split_and!; eauto.
      * apply Hext; [by rewrite lookup_insert_ne|by apply Hnm_get].
Qed.

Lemma client_inv_run_ops (os : list Op) (w : World) :
  client_inv w → client_inv (run_ops os w).
Proof.
  revert w. induction os as [|o os IH]; intros w Hw; simpl; [done|].
  by apply IH, client_inv_step.
Qed.

Lemma client_inv_empty (w : World) : cache w = ∅ → client_inv w.
Proof.
  intros He. split; [done|]. intros E Hp.
  apply present_inv in Hp as (v & Hv & _). by rewrite He in Hv.
Qed.

(** ** Updates: fetch, merge, put *)

Lemma bind_assoc {A B C} (m : M A) (f : A → M B) (g : B → M C) w :
  bind (bind m f) g w = bind m (λ a, bind (f a) g) w.
Proof. unfold bind. by destruct (m w) as [[a|e] w']. Qed.

Lemma bind_ext {A B} (m : M A) (f g : A → M B) w :
  (∀ a w', f a w' = g a w') → bind m f w = bind m g w.
Proof. intros H. unfold bind. by destruct (m w) as [[a|e] w']. Qed.

(** One step of the merge: the source's [if param is not None] against
    the generic [set_if] on the converted parameter. *)
Lemma merge_step {A} (conv : A → json) k (p : option A) data
  (f : json → M json) (g : json → M json) (h : json → M json) w :
  (∀ d w', f d w' = bind (g d) h w') →
  bind (set_if conv k p data) f w
  = bind (bind (set_if (λ v, v) k (conv <$> p) data) g) h w.
Proof.
  intros H. rewrite bind_assoc.
  replace (set_if (λ v, v) k (conv <$> p) data) with (set_if conv k p data)
    by (by destruct p).
  by apply bind_ext.
Qed.

Ltac enter_update :=
  erewrite bind_ok by apply require_id_Some;
  rewrite bind_assoc;
  erewrite bind_ok by apply require_id_Some;
  apply bind_ext; intros ? ?; cbn [merge_fields];
  repeat (apply merge_step; intros ? ?);
  reflexivity.

Lemma run_update_generic (u : UpdateCall) (i : Z) (w : World) :
  update_id u = Some i → run_update u w = fetch_merge_put u i w.
Proof.
  intros Hid. destruct u; simpl in Hid; subst;
    unfold run_update, fetch_merge_put, update_resource, update_fields.
  - unfold updateCollectionCategory, getCollectionCategory. enter_update.
  - unfold updateCollectionInstance, getCollectionInstance. enter_update.
  - unfold updateTagCategory, getTagCategory. enter_update.
  - unfold updateTagInstance, getTagInstance. enter_update.
  - unfold updateRequirementCategory, getRequirementCategory. enter_update.
  - unfold updateRequirementSkeleton, getRequirementSkeleton. enter_update.
  - unfold updateOptColumnType, getOptColumnType. enter_update.
  - unfold updateOptColumn, getOptColumn. enter_update.
  - unfold updateOptColumnContent, getOptColumnContent. enter_update.
  - unfold updateProjectType, getProjectType. enter_update.
Qed.








(** ** The invariant over whole runs *)

Lemma set_if_state {A} (conv : A → json) k (p : option A) data w :
  (set_if conv k p data w).2 = w.
Proof. destruct p; [|done]. by destruct data. Qed.

Lemma merge_fields_state data fields w : (merge_fields data fields w).2 = w.
Proof.
  revert data. induction fields as [|[k o] fields IH]; intros data; [done|].
  cbn [merge_fields]. unfold bind.
  pose proof (set_if_state (λ v, v) k o data w) as Hs.
  destruct (set_if _ k o data w) as [[d|e] w']; simpl in Hs; subst; [|done].
  apply IH.
Qed.

(** A single-item helper is a sequence of dispatch operations: none, the
    GET, or the GET and the PUT. *)
Lemma idcall_as_ops (c : IdCall) (w : World) :
  ∃ os, (run_idcall c w).2 = run_ops os w.
Proof.
  destruct c as [g [i|]|d [i|]|u].
  - destruct g; eexists [OGet _]; reflexivity.
  - destruct g; by exists [].
  - destruct d; eexists [ODelete _]; reflexivity.
  - destruct d; by exists [].
  - simpl. destruct (update_id u) as [i|] eqn:Hid.
    + rewrite (run_update_generic u i w Hid). unfold fetch_merge_put, bind.
      set (e := update_resource u +:+ "/" +:+ str_int i).
      destruct (get e w) as [[data|err] w1] eqn:Hg.
      * pose proof (merge_fields_state data (update_fields u) w1) as Hm.
        destruct (merge_fields data (update_fields u) w1) as [[data'|err] w1'];
          simpl in Hm; subst.
        -- exists [OGet e; OPut (update_resource u) data']. simpl. by rewrite Hg.
        -- exists [OGet e]. simpl. by rewrite Hg.
      * exists [OGet e]. simpl. by rewrite Hg.
    + exists []. destruct u; simpl in Hid; by subst.
Qed.

Lemma client_inv_run_calls (cs : list Call) (w : World) :
  client_inv w → client_inv (run_calls cs w).
Proof.
  revert w. induction cs as [|c cs IH]; intros w Hw; simpl; [done|].
  apply IH. destruct c as [o|c]; simpl.
  - by apply client_inv_step.
  - destruct (idcall_as_ops c w) as [os ->]. by apply client_inv_run_ops.
Qed.

(** C1: with caching on, once a post, put or delete against endpoint [E]
    has returned, the entry of [E] is not present, so the next
    [getCached E] goes the miss path and, the token being in the jar, sends
    a new GET of [E]; this holds in any state, so also right after a
    [getCached E] that succeeded.  As an invariant: starting from a client
    whose cache is empty, as at construction, and after any sequence of
    calls (dispatch operations, [getCached], single-item helpers), an entry
    of [E] is present only if the log holds a completed GET of [E] that no
    successful mutation of [E] follows. *)
Theorem invalidation_and_backing :
  (∀ (o : Op) (w : World),
     cached w = true → is_mutation o = true →
     (∃ v, (run_op o w).1 = Ok v) →
     present (op_endpoint o) (run_op o w).2 = false
     ∧ getCached (op_endpoint o) (run_op o w).2
       = fetch_and_store (op_endpoint o) (run_op o w).2
     ∧ ∀ tok, cookies (run_op o w).2 !! "CSRF-TOKEN" = Some tok →
         ∃ req resp,
           log (getCached (op_endpoint o) (run_op o w).2).2
           = (log (run_op o w).2 ++ [(req, resp)])%list
           ∧ r_method req = GET
           ∧ r_url req = url_of (run_op o w).2 (op_endpoint o))
  ∧ (∀ (w0 : World) (cs : list Call),
       cache w0 = ∅ → cache_backed (run_calls cs w0)).
Proof.
  split.
  - intros o w Hc Hm [v Hv].
    pose proof (mutation_ok_cache o w v Hm Hv) as Hcache.
    assert (Hoff : cached w = false → cache w = ∅) by congruence.
    pose proof (present_invalidated _ w _ Hoff Hcache) as Hp.
    destruct (run_op_fixed o w) as [_ Hc'].
    assert (Hrun : getCached (op_endpoint o) (run_op o w).2
                   = fetch_and_store (op_endpoint o) (run_op o w).2).
    { by rewrite getCached_run, Hc', Hc, Hp. }
    split_and!; [done|done|].
    intros tok Htok. rewrite Hrun. unfold fetch_and_store.
    pose proof (dispatch_log (OGet (op_endpoint o)) _ tok eq_refl Htok) as Hlog.
    eexists _, _. simpl in Hlog.
    destruct (get (op_endpoint o) (run_op o w).2) as [[v'|e] w'];
      (split_and!; [exact Hlog|done|done]).
  - intros w0 cs He. by apply client_inv_run_calls, client_inv_empty.
Qed.

Lemma invalidation_and_backing_witness :
  let w0 := logged_in "t0" true
              (scripted [ok_json (JList []); ok_json (JDict [("id", JInt 1)]);
                         ok_json (JList [JDict [("id", JInt 1)]])]
                        (failed 500 "")) in
  let w1 := (getCached "items" w0).2 in
  let w2 := (run_op (OPost "items" (JDict [])) w1).2 in
  present "items" w1 = true
  ∧ present "items" w2 = false
  ∧ (∃ req resp,
       log (getCached "items" w2).2 = (log w2 ++ [(req, resp)])%list
       ∧ r_method req = GET ∧ r_url req = url_of w2 "items")
  ∧ cache_backed
      (run_calls [CallOp (OGetCached "items"); CallOp (OGetCached "items");
                  CallOp (OPost "items" (JDict []));
                  CallItem (CallDelete DeleteTagCategory (Some 1));
                  CallOp (OGetCached "items")] w0).
Proof.
  intros w0 w1 w2. destruct invalidation_and_backing as [Hmut Hback].
  destruct (Hmut (OPost "items" (JDict [])) w1 eq_refl eq_refl)
    as (Hp & _ & Hget); [by eexists|].
  split_and!.
  - reflexivity.
  - exact Hp.
  - apply (Hget "t0"). reflexivity.
  - apply Hback. reflexivity.
Defined.

(** * Properties of the rest of the connector *)

(** ** Helpers and the list caches *)

(** After a mutation that returned, [getCached] of the same endpoint sends
    a GET to the URL the mutation went to. *)
Lemma mutation_then_miss (o : Op) (w : World) (v : json) (tok : string) :
  cached w = true →
  is_mutation o = true →
  (run_op o w).1 = Ok v →
  cookies (run_op o w).2 !! "CSRF-TOKEN" = Some tok →
  ∃ mreq mresp greq gresp,
    log (run_op o w).2 = (log w ++ [(mreq, mresp)])%list
    ∧ r_method mreq = op_method o
    ∧ log (getCached (op_endpoint o) (run_op o w).2).2
      = (log (run_op o w).2 ++ [(greq, gresp)])%list
    ∧ r_method greq = GET
    ∧ r_url greq = r_url mreq.
Proof.
  intros Hc Hm Hv Htok.
  assert (Hd : is_dispatch o = true) by (by destruct o).
  destruct (cookies w !! "CSRF-TOKEN") as [tok0|] eqn:Hc0;
    [|by rewrite (no_token_raises o w Hd Hc0) in Hv].
  pose proof (mutation_ok_cache o w v Hm Hv) as Hcache.
  assert (Hoff : cached w = false → cache w = ∅) by congruence.
  pose proof (present_invalidated _ w _ Hoff Hcache) as Hp.
  destruct (run_op_fixed o w) as [Ha Hc'].
  set (w' := (run_op o w).2) in *.
  exists (op_request o tok0 w), (answer o tok0 w),
    (op_request (OGet (op_endpoint o)) tok w'),
    (answer (OGet (op_endpoint o)) tok w').
  split_and!.
  - by apply dispatch_log.
  - done.
  - rewrite getCached_run, Hc', Hc, Hp. unfold fetch_and_store.
    pose proof (dispatch_log (OGet (op_endpoint o)) w' tok eq_refl Htok) as Hlog.
    simpl in Hlog. by destruct (get (op_endpoint o) w') as [[v'|e] w''].
  - done.
  - simpl. unfold url_of. by rewrite Ha.
Qed.

(** X1: with caching on, after an add helper has returned, the list getter
    of the same entity does not answer from the cache: it sends a GET, and
    to the very URL the add posted to. *)
Theorem add_refreshes_list (a : AddCall) (w : World) (v : json) (tok : string) :
  cached w = true →
  (run_add a w).1 = Ok v →
  cookies (run_add a w).2 !! "CSRF-TOKEN" = Some tok →
  ∃ preq presp greq gresp,
    log (run_add a w).2 = (log w ++ [(preq, presp)])%list
    ∧ r_method preq = POST
    ∧ log (run_lister (add_lister a) (run_add a w).2).2
      = (log (run_add a w).2 ++ [(greq, gresp)])%list
    ∧ r_method greq = GET
    ∧ r_url greq = r_url preq.
Proof.
  intros Hc Hv Htok.
  destruct a; exact (mutation_then_miss (OPost _ _) w v tok Hc eq_refl Hv Htok).
Qed.

Lemma add_refreshes_list_witness :
  let w0 := logged_in "t0" true
              (scripted [ok_json (JList []); ok_json (JDict [("id", JInt 1)]);
                         ok_json (JList [JDict [("id", JInt 1)]])]
                        (failed 500 "")) in
  let w := (run_lister GetTagCategories w0).2 in
  let a := AddTagCategory "n" "d" 0 false in
  (run_lister GetTagCategories (run_add a w).2).1
  = Ok (JList [JDict [("id", JInt 1)]])
  ∧ ∃ preq presp greq gresp,
      log (run_add a w).2 = (log w ++ [(preq, presp)])%list
      ∧ r_method preq = POST
      ∧ log (run_lister GetTagCategories (run_add a w).2).2
        = (log (run_add a w).2 ++ [(greq, gresp)])%list
      ∧ r_method greq = GET
      ∧ r_url greq = r_url preq.
Proof.
  intros w0 w a. split; [reflexivity|].
  apply (add_refreshes_list a w (JDict [("id", JInt 1)]) "t0"); reflexivity.
Defined.

(** An update that returned ended with a put that returned. *)
Lemma update_ok_inv (u : UpdateCall) (w : World) (v : json) :
  (run_update u w).1 = Ok v →
  ∃ i data w1,
    update_id u = Some i
    ∧ (get (update_resource u +:+ "/" +:+ str_int i) w).2 = w1
    ∧ run_update u w = put (update_resource u) data w1.
Proof.
  intros Hv. destruct (update_id u) as [i|] eqn:Hid.
  - rewrite (run_update_generic u i w Hid) in Hv |- *.
    unfold fetch_merge_put, bind in *.
    destruct (get _ w) as [[data|e] w1] eqn:Hg; [|done].
    pose proof (merge_fields_state data (update_fields u) w1) as Hm.
    destruct (merge_fields data (update_fields u) w1) as [[data'|e] w1'];
      simpl in Hm; subst w1'; [|done].
    exists i, data', w1. by rewrite Hg.
  - exfalso. destruct u; simpl in Hid; subst; discriminate.
Qed.

(** X2: with caching on, after an update helper has returned, the list
    getter of the same entity sends a GET to the URL the update's PUT went
    to: the PUT goes to the list endpoint, not to the item. *)
Theorem update_refreshes_list (u : UpdateCall) (w : World) (v : json)
  (tok : string) :
  cached w = true →
  (run_update u w).1 = Ok v →
  cookies (run_update u w).2 !! "CSRF-TOKEN" = Some tok →
  ∃ earlier preq presp greq gresp,
    log (run_update u w).2 = (earlier ++ [(preq, presp)])%list
    ∧ r_method preq = PUT
    ∧ log (run_lister (update_lister u) (run_update u w).2).2
      = (log (run_update u w).2 ++ [(greq, gresp)])%list
    ∧ r_method greq = GET
    ∧ r_url greq = r_url preq.
Proof.
  intros Hc Hv Htok.
  destruct (update_ok_inv u w v Hv) as (i & data & w1 & Hid & Hw1 & Hrun).
  rewrite Hrun in Hv, Htok |- *.
  assert (Hc1 : cached w1 = true).
  { rewrite <- Hw1.
    destruct (run_op_fixed (OGet (update_resource u +:+ "/" +:+ str_int i)) w)
      as [_ H]. simpl in H. by rewrite H. }
  destruct (mutation_then_miss (OPut (update_resource u) data) w1 v tok
              Hc1 eq_refl Hv Htok)
    as (mreq & mresp & greq & gresp & H1 & H2 & H3 & H4 & H5).
  exists (log w1), mreq, mresp, greq, gresp.
  split_and!; try done.
  destruct u; exact H3.
Qed.

Lemma update_refreshes_list_witness :
  let w0 := logged_in "t0" true
              (scripted [ok_json (JList [JDict [("id", JInt 1); ("name", JStr "a")]]);
                         ok_json (JDict [("id", JInt 1); ("name", JStr "a")]);
                         ok_json (JDict [("id", JInt 1); ("name", JStr "b")]);
                         ok_json (JList [JDict [("id", JInt 1); ("name", JStr "b")]])]
                        (failed 500 "")) in
  let w := (run_lister GetOptColumnTypes w0).2 in
  let u := UpdateOptColumnType (Some 1) (Some "b") None in
  map (λ x, (r_method x.1, r_url x.1))
      (log (run_lister GetOptColumnTypes (run_update u w).2).2)
  = [(GET, "http://server/api/optColumnTypes");
     (GET, "http://server/api/optColumnTypes/1");
     (PUT, "http://server/api/optColumnTypes");
     (GET, "http://server/api/optColumnTypes")]
  ∧ ∃ earlier preq presp greq gresp,
      log (run_update u w).2 = (earlier ++ [(preq, presp)])%list
      ∧ r_method preq = PUT
      ∧ log (run_lister GetOptColumnTypes (run_update u w).2).2
        = (log (run_update u w).2 ++ [(greq, gresp)])%list
      ∧ r_method greq = GET
      ∧ r_url greq = r_url preq.
Proof.
  intros w0 w u. split; [reflexivity|].
  apply (update_refreshes_list u w (JDict [("id", JInt 1); ("name", JStr "b")]) "t0");
    reflexivity.
Defined.

Lemma delete_state (e : string) (w : World) :
  (run_op (ODelete e) w).2 = (delete e w).2.
Proof. simpl. unfold bind. by destruct (delete e w) as [[b|err] w']. Qed.

(** An entry that [getCached] returned answers again after any operation
    that is no mutation against its endpoint. *)
Lemma hit_after_other (E : string) (o : Op) (w : World) (v : json) :
  cached w = true →
  (getCached E w).1 = Ok v →
  is_None v = false →
  ¬ (is_mutation o = true ∧ op_endpoint o = E) →
  getCached E (run_op o (getCached E w).2).2
  = (Ok v, (run_op o (getCached E w).2).2).
Proof.
  intros Hc Hok Hn Ho.
  pose proof (getCached_ok_stored E w v Hc Hok) as Hst.
  pose proof (entry_stable o _ E v Hst Hn Ho) as Hv.
  destruct (run_op_fixed o (getCached E w).2) as [_ Hc2].
  destruct (run_op_fixed (OGetCached E) w) as [_ Hc1]. simpl in Hc1.
  rewrite getCached_run, Hc2, Hc1, Hc, (present_lookup E _ v Hv Hn).
  by rewrite Hv.
Qed.

(** X3: a delete helper does not invalidate the list of its entity: once
    the list getter has returned a list, and whatever the delete of an item
    did (it may well have succeeded), the list getter returns the same list
    again and sends nothing.  The delete goes to the item endpoint, which
    is another cache key than the list endpoint. *)
Theorem delete_keeps_stale_list (d : Deleter) (i : Z) (w : World) (v : json) :
  cached w = true →
  (run_lister (deleter_lister d) w).1 = Ok v →
  is_None v = false →
  run_lister (deleter_lister d)
    (run_deleter d (Some i) (run_lister (deleter_lister d) w).2).2
  = (Ok v, (run_deleter d (Some i) (run_lister (deleter_lister d) w).2).2).
Proof.
  intros Hc Hv Hn.
  destruct d; simpl in *;
    unfold deleteCollectionCategory, deleteCollectionInstance,
      deleteTagCategory, deleteTagInstance, deleteRequirementCategory,
      deleteRequirementSkeleton, deleteOptColumnType, deleteOptColumn,
      deleteOptColumnContent, deleteProjectType,
      getCollectionCategories, getCollectionInstances, getTagCategories,
      getTagInstances, getRequirementCategories, getRequirementSkeletons,
      getOptColumnTypes, getOptColumns, getOptColumnContents,
      getProjectTypes in *;
    erewrite bind_ok by apply require_id_Some;
    rewrite <- delete_state;
    (apply hit_after_other; [done|done|done|]);
    intros [_ H]; simpl in H; inversion H.
Qed.

Lemma delete_keeps_stale_list_witness :
  let w := logged_in "t0" true
             (scripted [ok_json (JList [JDict [("id", JInt 5)]]);
                        mkResponse 204 "" None []]
                       (failed 500 "")) in
  let w1 := (run_lister GetTagInstances w).2 in
  let w2 := (run_deleter DeleteTagInstance (Some 5) w1).2 in
  (run_deleter DeleteTagInstance (Some 5) w1).1 = Ok true
  ∧ run_lister GetTagInstances w2 = (Ok (JList [JDict [("id", JInt 5)]]), w2).
Proof.
  intros w w1 w2. split; [reflexivity|].
  apply (delete_keeps_stale_list DeleteTagInstance 5 w); reflexivity.
Defined.

Lemma string_app_assoc (a b c : string) : (a +:+ b) +:+ c = a +:+ b +:+ c.
Proof.
  induction a as [|x a IH]; [done|].
  change (String x ((a +:+ b) +:+ c) = String x (a +:+ b +:+ c)).
  by rewrite IH.
Qed.

(** The exchange a [getCached] added to the log is a GET of its key. *)
Lemma getCached_exchange (E : string) (w : World) (req : Request)
  (resp : Response) :
  log (getCached E w).2 = (log w ++ [(req, resp)])%list →
  r_method req = GET ∧ r_url req = url_of w E.
Proof.
  intros Hlog.
  destruct (run_op_step (OGetCached E) w)
    as [Hw|(req' & resp' & Hlog' & Hm & Hu & _)]; simpl in *.
  - rewrite Hw in Hlog. apply (f_equal length) in Hlog.
    rewrite length_app in Hlog. simpl in Hlog. lia.
  - rewrite Hlog' in Hlog. apply app_inv_head in Hlog.
    by injection Hlog as <- <-.
Qed.

(** X4: the single-item getters never use the cache: with the token in the
    jar, every call sends one GET and leaves the cache map as it was,
    whatever the cache holds; and the URL is the one the list getter of the
    entity fetches, followed by a slash and the identifier. *)
Theorem item_get_bypasses_cache (g : Getter) (i : Z) (w : World) (tok : string) :
  cookies w !! "CSRF-TOKEN" = Some tok →
  ∃ req resp,
    log (run_getter g (Some i) w).2 = (log w ++ [(req, resp)])%list
    ∧ r_method req = GET
    ∧ cache (run_getter g (Some i) w).2 = cache w
    ∧ ∀ wl lreq lresp,
        api wl = api w →
        log (run_lister (getter_lister g) wl).2 = (log wl ++ [(lreq, lresp)])%list →
        r_url req = r_url lreq +:+ "/" +:+ str_int i.
Proof.
  intros Hc.
  assert (Hgen : ∀ res,
    ∃ req resp,
      log (get (res +:+ "/" +:+ str_int i) w).2 = (log w ++ [(req, resp)])%list
      ∧ r_method req = GET
      ∧ cache (get (res +:+ "/" +:+ str_int i) w).2 = cache w
      ∧ ∀ wl lreq lresp,
          api wl = api w →
          log (getCached res wl).2 = (log wl ++ [(lreq, lresp)])%list →
          r_url req = r_url lreq +:+ "/" +:+ str_int i).
  { intros res. set (e := res +:+ "/" +:+ str_int i).
    exists (op_request (OGet e) tok w), (answer (OGet e) tok w). split_and!.
    - exact (dispatch_log (OGet e) w tok eq_refl Hc).
    - done.
    - apply get_cache.
    - intros wl lreq lresp Ha Hl.
      destruct (getCached_exchange res wl lreq lresp Hl) as [_ ->].
      unfold url_of, e. simpl. rewrite Ha.
      by rewrite !string_app_assoc. }
  destruct g; simpl;
    unfold getCollectionCategory, getCollectionInstance, getTagCategory,
      getTagInstance, getRequirementCategory, getRequirementSkeleton,
      getOptColumnType, getOptColumn, getOptColumnContent, getProjectType,
      getStatusColumn, getAlternativeInstance;
    erewrite bind_ok by apply require_id_Some.
  - apply (Hgen "collectionCategorys").
  - apply (Hgen "collectionInstances").
  - apply (Hgen "tagCategorys").
  - apply (Hgen "tagInstances").
  - apply (Hgen "reqCategorys").
  - apply (Hgen "requirementSkeletons").
  - apply (Hgen "optColumnTypes").
  - apply (Hgen "optColumns").
  - apply (Hgen "optColumnContents").
  - apply (Hgen "projectTypes").
  - apply (Hgen "statusColumns").
  - apply (Hgen "alternativeInstances").
Qed.

Lemma item_get_bypasses_cache_witness :
  let w0 := logged_in "t0" true
              (scripted [ok_json (JList [JDict [("id", JInt 3)]])]
                        (ok_json (JDict [("id", JInt 3)]))) in
  let w := (run_lister GetStatusColumns w0).2 in
  map (λ x, r_url x.1)
      (log (run_getter GetStatusColumn (Some 3)
              (run_getter GetStatusColumn (Some 3) w).2).2)
  = ["http://server/api/statusColumns"; "http://server/api/statusColumns/3";
     "http://server/api/statusColumns/3"]
  ∧ ∃ req resp,
      log (run_getter GetStatusColumn (Some 3) w).2 = (log w ++ [(req, resp)])%list
      ∧ r_method req = GET
      ∧ cache (run_getter GetStatusColumn (Some 3) w).2 = cache w
      ∧ ∀ wl lreq lresp,
          api wl = api w →
          log (run_lister GetStatusColumns wl).2 = (log wl ++ [(lreq, lresp)])%list →
          r_url req = r_url lreq +:+ "/" +:+ str_int 3.
Proof.
  intros w0 w. split; [reflexivity|].
  apply (item_get_bypasses_cache GetStatusColumn 3 w "t0"). reflexivity.
Defined.

(** ** Calls without a token *)

Lemma deleter_run (d : Deleter) (i : Z) :
  ∃ e, ∀ w, run_deleter d (Some i) w = delete e w.
Proof. destruct d; eexists; intros w; reflexivity. Qed.

Lemma getCached_no_token (E : string) (w : World) :
  cookies w !! "CSRF-TOKEN" = None → cache w = ∅ →
  getCached E w = (Raise (KeyError "CSRF-TOKEN"), w).
Proof.
  intros Hc He. rewrite getCached_run. unfold fetch_and_store.
  change (get E w) with (run_op (OGet E) w).
  rewrite (no_token_raises (OGet E) w eq_refl Hc).
  destruct (cached w); [|done].
  rewrite present_None; [done|]. right. by rewrite He.
Qed.

(** X5: on a client whose jar holds no CSRF-TOKEN cookie and whose cache
    is empty, as right after construction and before the login, every
    operation of the dispatcher and of the cache, every list getter, every
    add helper and every single-item helper given an identifier raises
    [KeyError] for the cookie and leaves the state as it was: no request is
    sent. *)
Theorem no_token_no_request (w : World) :
  cookies w !! "CSRF-TOKEN" = None →
  cache w = ∅ →
  (∀ o, run_op o w = (Raise (KeyError "CSRF-TOKEN"), w))
  ∧ (∀ l, run_lister l w = (Raise (KeyError "CSRF-TOKEN"), w))
  ∧ (∀ a, run_add a w = (Raise (KeyError "CSRF-TOKEN"), w))
  ∧ (∀ c, idcall_id c ≠ None →
          run_idcall c w = (Raise (KeyError "CSRF-TOKEN"), w)).
Proof.
  intros Hc He.
  assert (Hop : ∀ o, run_op o w = (Raise (KeyError "CSRF-TOKEN"), w)).
  { intros o. destruct (is_dispatch o) eqn:Hd.
    - by apply no_token_raises.
    - destruct o; try discriminate. by apply getCached_no_token. }
  split_and!.
  - exact Hop.
  - intros l. destruct l; by apply getCached_no_token.
  - intros a. destruct a; exact (Hop (OPost _ _)).
  - intros c Hid. destruct c as [g [i|]|d [i|]|u]; simpl in Hid; try done.
    + destruct g; exact (Hop (OGet _)).
    + destruct (deleter_run d i) as [e Hrun].
      pose proof (Hop (ODelete e)) as Hdel. simpl in *. unfold bind in *.
      by rewrite Hrun.
    + simpl. destruct (update_id u) as [i|] eqn:Hu; [|done].
      rewrite (run_update_generic u i w Hu). unfold fetch_merge_put.
      pose proof (Hop (OGet (update_resource u +:+ "/" +:+ str_int i))) as Hg.
      simpl in Hg. unfold bind at 1. by rewrite Hg.
Qed.

Lemma no_token_no_request_witness :
  let w := init "http://server/api" true true (scripted [] (ok_json JNull)) in
  run_op (OGetCached "tagCategorys") w = (Raise (KeyError "CSRF-TOKEN"), w)
  ∧ run_add (AddOptColumnType "n" "d") w = (Raise (KeyError "CSRF-TOKEN"), w)
  ∧ run_idcall (CallDelete DeleteOptColumn (Some 4)) w
    = (Raise (KeyError "CSRF-TOKEN"), w).
Proof.
  intros w.
  destruct (no_token_no_request w eq_refl eq_refl) as (Hop & _ & Hadd & Hid).
  split_and!; [apply Hop|apply Hadd|by apply Hid].
Defined.

(** ** The login handshake *)

(** What [doLogin] does, case by case. *)
Lemma doLogin_run wp user password (w : World) :
  doLogin wp user password w =
    let cfg := config_answer w in
    let w1 := mkWorld (jar_after_config w) (api w) (verifyCertificates w)
                (cached w) (cache w) (headers w) (remote w)
                (log w ++ [(config_request w, cfg)]) in
    if negb (status_code cfg =? 200)%Z
    then (Raise (Exception (login_message cfg)), w1)
    else login wp user password w1.
Proof.
  unfold doLogin, getConfig, session_request, exchange, config_answer,
    jar_after_config, config_request. unfold_monad. simpl.
  by destruct (negb _).
Qed.

(** X6: [doLogin] sends the credentials only after a configuration request
    that was answered with status 200 and left a CSRF-TOKEN cookie in the
    jar.  With any other status it raises the login exception, whose
    message holds the status code and the printed content; with status 200
    and no cookie it raises [KeyError].  In both cases the configuration
    request is the only exchange made, and cache and headers are as
    before. *)
Theorem doLogin_needs_config wp user password (w : World) :
  status_code (config_answer w) ≠ 200
  ∨ jar_after_config w !! "CSRF-TOKEN" = None →
  (doLogin wp user password w).1 =
    (if negb (status_code (config_answer w) =? 200)%Z
     then Raise (Exception (login_message (config_answer w)))
     else Raise (KeyError "CSRF-TOKEN"))
  ∧ log (doLogin wp user password w).2
    = (log w ++ [(config_request w, config_answer w)])%list
  ∧ cache (doLogin wp user password w).2 = cache w
  ∧ headers (doLogin wp user password w).2 = headers w.
Proof.
  intros H. rewrite doLogin_run. cbv zeta.
  destruct (Z.eqb_spec (status_code (config_answer w)) 200) as [Hs|Hs]; simpl.
  - destruct H as [H|H]; [done|].
    unfold login, cookie_getitem. unfold_monad. simpl. by rewrite H.
  - done.
Qed.

Lemma doLogin_needs_config_witness :
  let w := init "http://server/api" true true
             (scripted [mkResponse 200 "{}" None []] (ok_json JNull)) in
  (doLogin (λ url _, url) "user" "secret" w).1 = Raise (KeyError "CSRF-TOKEN")
  ∧ length (log (doLogin (λ url _, url) "user" "secret" w).2) = 1%nat.
Proof.
  intros w.
  destruct (doLogin_needs_config (λ url _, url) "user" "secret" w)
    as (Hr & Hl & _); [by right|].
  split; [exact Hr|]. rewrite Hl. reflexivity.
Defined.

Lemma login_run wp user password (w : World) (tok : string) :
  cookies w !! "CSRF-TOKEN" = Some tok →
  login wp user password w =
    let req := login_request wp user password tok w in
    let resp := remote w (map fst (log w)) req in
    ((if (status_code resp =? 200)%Z then Ok true
      else Raise (Exception (login_message resp))),
     mkWorld (foldl apply_cookie (cookies w) (set_cookie resp)) (api w)
       (verifyCertificates w) (cached w) (cache w) (headers w) (remote w)
       (log w ++ [(req, resp)])).
Proof.
  intros Htok.
  unfold login, cookie_getitem, session_request, exchange, login_request.
  unfold_monad. simpl. rewrite Htok. simpl. by destruct (_ =? 200)%Z.
Qed.

(** X7: when the configuration request is answered with status 200 and
    the jar then holds a CSRF-TOKEN cookie, [doLogin] makes exactly one more
    exchange: a POST without a body whose URL is the authentication
    endpoint with user name and password as query parameters, and whose
    X-CSRF-TOKEN header is the cookie as the jar holds it after the
    configuration answer.  It returns [True] when this POST is answered
    with status 200 and raises the login exception for every other status,
    201 and 204 included.  Cache and headers are as before. *)
Theorem doLogin_handshake wp user password (w : World) (tok : string) :
  status_code (config_answer w) = 200 →
  jar_after_config w !! "CSRF-TOKEN" = Some tok →
  ∃ req resp,
    log (doLogin wp user password w).2
    = (log w ++ [(config_request w, config_answer w); (req, resp)])%list
    ∧ r_method req = POST
    ∧ r_url req = wp (api w +:+ "/authentication")
                     [("j_password", password); ("j_username", user)]
    ∧ r_json req = None
    ∧ r_headers req !! "X-CSRF-TOKEN" = Some (Some tok)
    ∧ (doLogin wp user password w).1 =
        (if (status_code resp =? 200)%Z then Ok true
         else Raise (Exception (login_message resp)))
    ∧ cache (doLogin wp user password w).2 = cache w
    ∧ headers (doLogin wp user password w).2 = headers w.
Proof.
  intros Hs Htok. rewrite doLogin_run. cbv zeta. rewrite Hs. simpl.
  set (w1 := mkWorld _ _ _ _ _ _ _ _).
  rewrite (login_run wp user password w1 tok Htok). cbv zeta.
  exists (login_request wp user password tok w1),
    (remote w1 (map fst (log w1)) (login_request wp user password tok w1)).
  split_and!; try done. simpl. by rewrite <- app_assoc.
Qed.

Lemma doLogin_handshake_witness :
  let w := init "http://server/api" true true
             (scripted [mkResponse 200 "{}" None [("CSRF-TOKEN", Some "t1")];
                        mkResponse 204 "" None []] (ok_json JNull)) in
  ∃ req resp,
    log (doLogin (λ url _, url) "user" "secret" w).2
    = [(config_request w, config_answer w); (req, resp)]
    ∧ r_headers req !! "X-CSRF-TOKEN" = Some (Some "t1")
    ∧ status_code resp = 204
    ∧ (doLogin (λ url _, url) "user" "secret" w).1
      = Raise (Exception (login_message resp)).
Proof.
  intros w.
  destruct (doLogin_handshake (λ url _, url) "user" "secret" w "t1"
              eq_refl eq_refl)
    as (req & resp & Hl & _ & _ & _ & Hh & Hr & _).
  exists req, resp.
  assert (Hresp : resp = mkResponse 204 "" None []).
  { apply (f_equal (λ l, snd <$> last l)) in Hl. vm_compute in Hl.
    by injection Hl. }
  split_and!; [exact Hl|exact Hh|by rewrite Hresp|].
  rewrite Hr, Hresp. reflexivity.
Defined.

(** ** The finders *)

Lemma match_projectTypes_spec v pts wanted found ids :
  ids_of pts = Some ids →
  match_projectTypes v pts wanted found
  = Ok (found ++ replicate
          (length (filter (λ i, existsb (eq_int i) wanted = true) ids)) v)%list.
Proof.
  revert found ids. induction pts as [|p pts IH]; intros found ids Hids;
    simpl in *.
  - injection Hids as <-. simpl. by rewrite app_nil_r.
  - destruct (subscript p "id") as [i|e]; [|done].
    destruct (ids_of pts) as [ids1|]; [|done]. injection Hids as <-.
    rewrite (IH _ ids1 eq_refl). rewrite filter_cons.
    destruct (existsb (eq_int i) wanted) eqn:Hex.
    + rewrite decide_True by done. simpl. by rewrite <- app_assoc.
    + by rewrite decide_False by done.
Qed.

Lemma skeletons_with_projectType_spec data wanted found :
  Forall (λ v, is_Some (project_type_ids v)) data →
  skeletons_with_projectType data wanted found
  = Ok (found ++ flat_map (λ v, replicate (occurrences wanted v) v) data)%list.
Proof.
  intros Hall. revert found.
  induction Hall as [|v data [ids His] Hall IH]; intros found; simpl.
  - by rewrite app_nil_r.
  - unfold occurrences. rewrite His. unfold project_type_ids in His.
    destruct (subscript v "projectTypes") as [pts|e]; [|done].
    destruct (py_iter pts) as [pts'|e]; [|done].
    rewrite (match_projectTypes_spec v pts' wanted found ids His).
    rewrite IH. by rewrite <- app_assoc.
Qed.

(** X8: when the cached getter gives a list of skeletons each of which has
    project types with identifiers, the finder returns the skeletons in
    their order, each one once for every project type of it whose
    identifier is among those asked for: a skeleton with two matching
    project types comes twice.  A single identifier is the list of that
    one identifier.  The state is the one the cached getter leaves. *)
Theorem skeleton_finder_counts (projectType : list Z + Z) (w w' : World)
  (data : list json) :
  getRequirementSkeletons w = (Ok (JList data), w') →
  Forall (λ v, is_Some (project_type_ids v)) data →
  findRequirementSkeletonWithProjectType projectType w
  = (Ok (JList (flat_map
                  (λ v, replicate
                          (occurrences
                             match projectType with inr p => [p] | inl l => l end
                             v) v)
                  data)), w').
Proof.
  intros Hget Hall. unfold findRequirementSkeletonWithProjectType.
  rewrite (bind_ok _ _ _ _ _ Hget). simpl. unfold bind at 1. simpl.
  unfold bind. simpl.
  by rewrite (skeletons_with_projectType_spec data _ [] Hall).
Qed.

Lemma skeleton_finder_counts_witness :
  let skel (i : Z) (pts : list Z) :=
    JDict [("id", JInt i); ("projectTypes", JList (map id_ref pts))] in
  let data := [skel 1 [10; 20]; skel 2 [30]; skel 3 [20]] in
  let w := logged_in "t0" true (scripted [ok_json (JList data)] (failed 500 "")) in
  (findRequirementSkeletonWithProjectType (inl [10; 20]) w).1
  = Ok (JList [skel 1 [10; 20]; skel 1 [10; 20]; skel 3 [20]])
  ∧ (findRequirementSkeletonWithProjectType (inr 30) w).1
    = Ok (JList [skel 2 [30]]).
Proof.
  intros skel data w.
  assert (Hall : Forall (λ v, is_Some (project_type_ids v)) data).
  { repeat constructor; by eexists. }
  split.
  - rewrite (skeleton_finder_counts (inl [10; 20]) w _ data eq_refl Hall).
    reflexivity.
  - rewrite (skeleton_finder_counts (inr 30) w _ data eq_refl Hall).
    reflexivity.
Defined.

Lemma contents_with_id_spec field data wanted found :
  Forall (λ v, ∃ i, nested_id field v = Ok i) data →
  contents_with_id field data wanted found
  = Ok (found ++ filter (λ v, has_id field wanted v = true) data)%list.
Proof.
  intros Hall. revert found.
  induction Hall as [|v data [i Hi] Hall IH]; intros found; simpl.
  - by rewrite app_nil_r.
  - assert (Hhas : has_id field wanted v = eq_int i wanted)
      by (unfold has_id; by rewrite Hi).
    rewrite filter_cons. unfold nested_id in Hi.
    destruct (subscript v field) as [r|e]; [|done]. rewrite Hi, IH.
    destruct (eq_int i wanted).
    + rewrite decide_True by done. by rewrite <- app_assoc.
    + rewrite decide_False; [done|]. by rewrite Hhas.
Qed.

Lemma contents_with_id_raise field good bad rest wanted found e :
  Forall (λ v, ∃ i, nested_id field v = Ok i) good →
  nested_id field bad = Raise e →
  contents_with_id field (good ++ bad :: rest)%list wanted found = Raise e.
Proof.
  intros Hall Hbad. revert found.
  induction Hall as [|v good [i Hi] Hall IH]; intros found; simpl.
  - unfold nested_id in Hbad.
    destruct (subscript bad field) as [r|e']; [by rewrite Hbad|].
    by injection Hbad as ->.
  - unfold nested_id in Hi.
    destruct (subscript v field) as [r|e']; [|done]. by rewrite Hi, IH.
Qed.

(** X9: the two finders that compare a nested identifier.  When the cached
    getter gives a list whose items all have the field and an [id] in it,
    the finder returns exactly the items whose identifier equals the one
    asked for, in their order.  When some item lacks the field or the
    [id], the finder raises the error of the first such item and returns
    nothing, whatever the items before it matched. *)
Theorem id_finder_filters (f : IdFinder) (wanted : Z) (w w' : World)
  (data : list json) :
  getOptColumnContents w = (Ok (JList data), w') →
  (Forall (λ v, ∃ i, nested_id (finder_field f) v = Ok i) data →
   run_id_finder f wanted w
   = (Ok (JList (filter (λ v, has_id (finder_field f) wanted v = true) data)), w'))
  ∧ (∀ good bad rest e,
       data = (good ++ bad :: rest)%list →
       Forall (λ v, ∃ i, nested_id (finder_field f) v = Ok i) good →
       nested_id (finder_field f) bad = Raise e →
       run_id_finder f wanted w = (Raise e, w')).
Proof.
  intros Hget. split.
  - intros Hall.
    destruct f; simpl in *;
      unfold findOptColumnContentsWithRequirementSkeletonId,
        findOptColumnContentsWithOptColumnId;
      rewrite (bind_ok _ _ _ _ _ Hget); simpl; unfold bind; simpl;
      by rewrite (contents_with_id_spec _ data wanted [] Hall).
  - intros good bad rest e -> Hgood Hbad.
    destruct f; simpl in *;
      unfold findOptColumnContentsWithRequirementSkeletonId,
        findOptColumnContentsWithOptColumnId;
      rewrite (bind_ok _ _ _ _ _ Hget); simpl; unfold bind; simpl;
      by rewrite (contents_with_id_raise _ good bad rest wanted [] e Hgood Hbad).
Qed.

Lemma id_finder_filters_witness :
  let item (i s : Z) :=
    JDict [("id", JInt i); ("requirementSkeleton", id_ref s);
           ("optColumn", id_ref 1)] in
  let broken := JDict [("id", JInt 9); ("optColumn", id_ref 1)] in
  let w := logged_in "t0" true
             (scripted [ok_json (JList [item 1 7; item 2 8; item 3 7])]
                       (failed 500 "")) in
  let w2 := logged_in "t0" true
              (scripted [ok_json (JList [item 1 7; broken; item 3 7])]
                        (failed 500 "")) in
  (run_id_finder FindOptColumnContentsWithRequirementSkeletonId 7 w).1
  = Ok (JList [item 1 7; item 3 7])
  ∧ (run_id_finder FindOptColumnContentsWithRequirementSkeletonId 7 w2).1
    = Raise (KeyError "requirementSkeleton").
Proof.
  intros item broken w w2. split.
  - destruct (id_finder_filters FindOptColumnContentsWithRequirementSkeletonId
                7 w _ [item 1 7; item 2 8; item 3 7] eq_refl) as [H _].
    rewrite H; [reflexivity|]. repeat constructor; by eexists.
  - destruct (id_finder_filters FindOptColumnContentsWithRequirementSkeletonId
                7 w2 _ [item 1 7; broken; item 3 7] eq_refl) as [_ H].
    rewrite (H [item 1 7] broken [item 3 7] (KeyError "requirementSkeleton"));
      [reflexivity|reflexivity| |reflexivity].
    repeat constructor; by eexists.
Defined.

Lemma contents_with_content_spec data search found :
  Forall (λ v, is_Some (content_of v)) data →
  contents_with_content data search found
  = inl (found ++ filter (λ v, has_content search v = true) data)%list.
Proof.
  intros Hall. revert found.
  induction Hall as [|v data [c Hc] Hall IH]; intros found; simpl.
  - by rewrite app_nil_r.
  - assert (Hhas : has_content search v = contains search c)
      by (unfold has_content; by rewrite Hc).
    rewrite filter_cons. unfold content_of in Hc.
    destruct (subscript v "content") as [[| | |c'| |]|e]; try done.
    injection Hc as ->. rewrite IH.
    destruct (contains search c).
    + rewrite decide_True by done. by rewrite <- app_assoc.
    + rewrite decide_False; [done|]. by rewrite Hhas.
Qed.

Lemma contents_with_content_raise good bad rest search found x :
  Forall (λ v, is_Some (content_of v)) good →
  subscript bad "content" = Ok x →
  (∀ c, x ≠ JStr c) →
  contents_with_content (good ++ bad :: rest)%list search found
  = inr AttributeError.
Proof.
  intros Hall Hbad Hx. revert found.
  induction Hall as [|v good [c Hc] Hall IH]; intros found; simpl.
  - rewrite Hbad. destruct x; try done. by destruct (Hx s).
  - unfold content_of in Hc.
    destruct (subscript v "content") as [[| | |c'| |]|e]; done.
Qed.

Lemma contains_empty (c : string) : contains "" c = true.
Proof. rewrite contains_unfold. by destruct c. Qed.

Lemma filter_all {A} (P : A → Prop) `{∀ x, Decision (P x)} (l : list A) :
  Forall P l → filter P l = l.
Proof.
  induction 1 as [|x l Hx Hl IH]; [done|].
  rewrite filter_cons, decide_True by done. by rewrite IH.
Qed.

(** X10: the finder by content.  Its [regex] argument changes nothing.
    When the cached getter gives a list whose items all have a string as
    [content], the finder returns exactly the items whose content holds
    the search string, in their order, so all of them for the empty
    search string.  An item whose [content] is no string ([None], say)
    makes it raise [AttributeError] and return nothing. *)
Theorem content_finder_filters (search : string) (regex : bool) (w w' : World)
  (data : list json) :
  getOptColumnContents w = (Ok (JList data), w') →
  findOptColumnContentsWithContent search regex w
  = findOptColumnContentsWithContent search (negb regex) w
  ∧ (Forall (λ v, is_Some (content_of v)) data →
     findOptColumnContentsWithContent search regex w
     = (inl (filter (λ v, has_content search v = true) data), w')
     ∧ findOptColumnContentsWithContent "" regex w = (inl data, w'))
  ∧ (∀ good bad rest x,
       data = (good ++ bad :: rest)%list →
       Forall (λ v, is_Some (content_of v)) good →
       subscript bad "content" = Ok x →
       (∀ c, x ≠ JStr c) →
       findOptColumnContentsWithContent search regex w
       = (inr AttributeError, w')).
Proof.
  intros Hget. unfold findOptColumnContentsWithContent. rewrite Hget. simpl.
  split_and!.
  - done.
  - intros Hall. rewrite !(contents_with_content_spec data _ [] Hall). simpl.
    split; [done|]. f_equal. f_equal. apply filter_all.
    eapply Forall_impl; [exact Hall|]. intros v [c Hc]. unfold has_content.
    rewrite Hc. apply contains_empty.
  - intros good bad rest x -> Hgood Hbad Hx.
    by rewrite (contents_with_content_raise good bad rest search [] x).
Qed.

Lemma content_finder_filters_witness :
  let item (i : Z) (c : json) := JDict [("id", JInt i); ("content", c)] in
  let data := [item 1 (JStr "use TLS"); item 2 (JStr "log in"); item 3 (JStr "TLS 1.3")] in
  let w := logged_in "t0" true (scripted [ok_json (JList data)] (failed 500 "")) in
  let w2 := logged_in "t0" true
              (scripted [ok_json (JList [item 1 (JStr "use TLS"); item 2 JNull])]
                        (failed 500 "")) in
  (findOptColumnContentsWithContent "TLS" true w).1
  = inl [item 1 (JStr "use TLS"); item 3 (JStr "TLS 1.3")]
  ∧ (findOptColumnContentsWithContent "TLS" false w2).1 = inr AttributeError.
Proof.
  intros item data w w2. split.
  - destruct (content_finder_filters "TLS" true w _ data eq_refl) as (_ & H & _).
    destruct H as [H _]; [repeat constructor; by eexists|].
    rewrite H. reflexivity.
  - destruct (content_finder_filters "TLS" false w2 _
                [item 1 (JStr "use TLS"); item 2 JNull] eq_refl) as (_ & _ & H).
    rewrite (H [item 1 (JStr "use TLS")] (item 2 JNull) [] JNull);
      [reflexivity|reflexivity| |reflexivity|done].
    repeat constructor; by eexists.
Defined.

(** ** The entry list *)

(** Induction on values, with the hypothesis for the values inside lists
    and dicts. *)
Lemma json_nested_ind (P : json → Prop) :
  P JNull → (∀ b, P (JBool b)) → (∀ n, P (JInt n)) → (∀ s, P (JStr s)) →
  (∀ l, Forall P l → P (JList l)) →
  (∀ d, Forall (λ kv, P kv.2) d → P (JDict d)) →
  ∀ v, P v.
Proof.
  intros Hnull Hbool Hint Hstr Hlist Hdict.
  fix IH 1. intros [| b | n | s | l | d].
  - exact Hnull.
  - apply Hbool.
  - apply Hint.
  - apply Hstr.
  - apply Hlist. induction l as [|x l IHl]; constructor; [apply IH|exact IHl].
  - apply Hdict. induction d as [|[k x] d IHd]; constructor;
      [apply IH|exact IHd].
Qed.

Lemma removeDeactivatedValue_dict d :
  removeDeactivatedValue (JDict d) = removal_loop d d.
Proof.
  simpl.
  match goal with
  | |- ?f d d = _ =>
      enough (H : ∀ items data, f items data = removal_loop items data)
        by apply H
  end.
  induction items as [|[k v] items IH]; intros data; [done|].
  simpl. by rewrite !IH.
Qed.

Lemma dict_set_get_id d k v : dict_get d k = Some v → dict_set d k v = d.
Proof.
  induction d as [|[k0 v0] d IH]; simpl; [done|].
  destruct (String.eqb k0 k); [by intros [= ->]|]. intros H. by rewrite IH.
Qed.

Lemma dict_get_NoDup d :
  NoDup d.*1 → Forall (λ kv, dict_get d kv.1 = Some kv.2) d.
Proof.
  induction d as [|[k v] d IH]; intros Hnd; [constructor|].
  apply NoDup_cons in Hnd as [Hk Hnd]. simpl in Hk. constructor.
  - simpl. by rewrite String.eqb_refl.
  - apply Forall_forall. intros [k' v'] Hin. simpl.
    destruct (String.eqb_spec k k') as [<-|Hne].
    + exfalso. apply Hk. apply list_elem_of_fmap. by exists (k, v').
    + specialize (IH Hnd). rewrite Forall_forall in IH. exact (IH _ Hin).
Qed.

Lemma inactive_cons k x d :
  inactive (JDict ((k, x) :: d))
  = ((String.eqb k "active" && is_False x) || inactive x || inactive (JDict d))%bool.
Proof. reflexivity. Qed.

Lemma removal_loop_spec items data :
  Forall (λ kv, removal_spec kv.2) items →
  (inactive (JDict items) = true → removal_loop items data = JNull)
  ∧ (inactive (JDict items) = false →
     is_None (removal_loop items data) = false
     ∧ (Forall (λ kv, well_formed kv.2) items →
        Forall (λ kv, dict_get data kv.1 = Some kv.2) items →
        removal_loop items data = JDict data)).
Proof.
  intros Hall. revert data.
  induction Hall as [|[k x] items Hx Hall IH]; intros data.
  - split; [done|]. by intros _.
  - rewrite inactive_cons. simpl in Hx. cbn [removal_loop].
    destruct (String.eqb k "active" && is_False x)%bool eqn:Ht; [by split|].
    rewrite orb_false_l.
    assert (Hrest : ∀ data',
      (data' = data ∨ ∃ c, x = JDict c) →
      (well_formed x → ∀ c, x = JDict c → data' = dict_set data k x) →
      (inactive (JDict items) = true → removal_loop items data' = JNull)
      ∧ (inactive (JDict items) = false →
         is_None (removal_loop items data') = false
         ∧ (Forall (λ kv, well_formed kv.2) ((k, x) :: items) →
            Forall (λ kv, dict_get data kv.1 = Some kv.2) ((k, x) :: items) →
            removal_loop items data' = JDict data))).
    { intros data' Hd Hset. destruct (IH data') as [IH1 IH2].
      split; [exact IH1|]. intros Hin. destruct (IH2 Hin) as [IH3 IH4].
      split; [exact IH3|]. intros Hwf Hget.
      apply Forall_cons in Hwf as [Hwx Hwf].
      apply Forall_cons in Hget as [Hgx Hget]. simpl in Hwx, Hgx.
      assert (data' = data) as ->.
      { destruct Hd as [->|[c Hc]]; [done|].
        rewrite (Hset Hwx c Hc). by apply dict_set_get_id. }
      by apply IH4. }
    destruct (inactive x) eqn:Hix.
    + rewrite orb_true_l. destruct x as [| b | n | s | l | c]; try discriminate.
      destruct (Hx c eq_refl) as [Hx1 _]. cbv beta iota.
      rewrite (Hx1 Hix). by split.
    + rewrite orb_false_l.
      destruct x as [| b | n | s | l | c]; cbv beta iota;
        try (apply Hrest; [by left|done]).
      destruct (Hx c eq_refl) as [_ Hx2].
      destruct (Hx2 Hix) as [Hn Hsame]. rewrite Hn.
      apply Hrest; [right; by eexists|].
      intros Hw c' _. by rewrite (Hsame Hw).
Qed.

Lemma removal_spec_all (v : json) : removal_spec v.
Proof.
  induction v as [| | | | |d IH] using json_nested_ind; try (by intros d' ?).
  intros d' [= <-]. rewrite removeDeactivatedValue_dict.
  destruct (removal_loop_spec d d IH) as [H1 H2].
  split; [exact H1|]. intros Hi. destruct (H2 Hi) as [H3 H4].
  split; [exact H3|]. intros Hwf. inversion Hwf as [| | | | |d0 Hnd Hch]; subst.
  apply H4; [exact Hch|]. by apply dict_get_NoDup.
Qed.

Lemma well_formedb_ok (v : json) : well_formedb v = true → well_formed v.
Proof.
  induction v as [| | | |l IH|d IH] using json_nested_ind; try by constructor.
  - intros H. constructor. simpl in H.
    induction IH as [|x l Hx _ IHl]; [constructor|].
    apply andb_prop in H as [H1 H2]. constructor; [by apply Hx|by apply IHl].
  - intros H. simpl in H. apply andb_prop in H as [Hnd H].
    constructor; [by apply bool_decide_eq_true in Hnd|].
    clear Hnd. induction IH as [|[k x] d Hx _ IHd]; [constructor|].
    apply andb_prop in H as [H1 H2]. constructor; [by apply Hx|by apply IHd].
Qed.

Lemma inactive_app d1 d2 :
  inactive (JDict (d1 ++ d2))
  = (inactive (JDict d1) || inactive (JDict d2))%bool.
Proof.
  induction d1 as [|[k x] d1 IH]; [done|].
  change (((k, x) :: d1) ++ d2)%list with ((k, x) :: (d1 ++ d2))%list.
  rewrite !inactive_cons, IH. by rewrite !orb_assoc.
Qed.

Lemma removeDeactivatedDict_None d :
  removeDeactivatedDict d = JNull ↔ inactive (JDict d) = true.
Proof.
  unfold removeDeactivatedDict.
  destruct (removal_spec_all (JDict d) d eq_refl) as [H1 H2]. split.
  - intros Hn. destruct (inactive (JDict d)); [done|].
    destruct (H2 eq_refl) as [H _]. by rewrite Hn in H.
  - exact H1.
Qed.

(** X11: [removeDeactivatedDict] returns [None] exactly for a deactivated
    record, one that holds ['active': False] itself or in a record nested
    in it through values that are records; any other record it returns as
    it is, unchanged.  It does not look into lists: a field whose value is
    a list never makes a record deactivated, whatever the list holds. *)
Theorem removeDeactivatedDict_spec (d : list (string * json)) :
  (removeDeactivatedDict d = JNull ↔ inactive (JDict d) = true)
  ∧ (inactive (JDict d) = false → well_formed (JDict d) →
     removeDeactivatedDict d = JDict d)
  ∧ (∀ k l, removeDeactivatedDict (d ++ [(k, JList l)]) = JNull
            ↔ removeDeactivatedDict d = JNull).
Proof.
  split_and!.
  - apply removeDeactivatedDict_None.
  - intros Hi Hwf. unfold removeDeactivatedDict.
    destruct (removal_spec_all (JDict d) d eq_refl) as [_ H2].
    destruct (H2 Hi) as [_ H]. by apply H.
  - intros k l. rewrite !removeDeactivatedDict_None, inactive_app.
    rewrite inactive_cons. simpl. rewrite andb_false_r. simpl.
    by rewrite orb_false_r.
Qed.

Lemma removeDeactivatedDict_spec_witness :
  let category (a : bool) := JDict [("id", JInt 7); ("active", JBool a)] in
  let item (a : bool) :=
    [("id", JInt 1); ("active", JBool true); ("category", category a);
     ("tags", JList [JDict [("active", JBool false)]])] in
  removeDeactivatedDict (item false) = JNull
  ∧ removeDeactivatedDict (item true) = JDict (item true).
Proof.
  intros category item.
  destruct (removeDeactivatedDict_spec (item false)) as (H1 & _ & _).
  destruct (removeDeactivatedDict_spec (item true)) as (_ & H2 & _).
  split; [by apply H1|]. apply H2; [reflexivity|].
  by apply well_formedb_ok.
Defined.

Lemma removal_of_spec v :
  well_formed v → removal_of v = if inactive v then JNull else v.
Proof.
  intros Hwf. destruct v as [| | | | |d]; try reflexivity.
  cbn [removal_of]. destruct (inactive (JDict d)) eqn:Hi.
  - by apply removeDeactivatedDict_None.
  - unfold removeDeactivatedDict.
    destruct (removal_spec_all (JDict d) d eq_refl) as [_ H2].
    destruct (H2 Hi) as [_ H]. by apply H.
Qed.

(** The loop over the list replaces every element by its removal. *)
Lemma removeDeactivated_loop_map items pre :
  removeDeactivated_loop (length pre) items (pre ++ items)
  = (pre ++ map removal_of items)%list.
Proof.
  revert pre. induction items as [|v items IH]; intros pre; [done|].
  cbn [removeDeactivated_loop map].
  assert (Hins : match v with
                 | JDict d =>
                     <[length pre := removeDeactivatedDict d]> (pre ++ v :: items)%list
                 | _ => (pre ++ v :: items)%list
                 end = ((pre ++ [removal_of v]) ++ items)%list).
  { rewrite <- app_assoc. simpl.
    destruct v as [| | | | |d]; try done. simpl.
    rewrite insert_app_r_alt by lia. by rewrite Nat.sub_diag. }
  rewrite Hins.
  replace (S (length pre)) with (length (pre ++ [removal_of v]))
    by (rewrite length_app; simpl; lia).
  rewrite IH. by rewrite <- app_assoc.
Qed.

Lemma removal_filter (data : list json) :
  Forall well_formed data →
  (removeDeactivatedList data).1
  = map (λ v, if inactive v then JNull else v) data
  ∧ (removeDeactivatedList data).2
    = filter (λ v, is_None v = false ∧ inactive v = false) data.
Proof.
  intros Hwf. unfold removeDeactivatedList. cbv zeta. cbn [fst snd].
  pose proof (removeDeactivated_loop_map data []) as Hloop.
  simpl in Hloop. rewrite Hloop.
  assert (Hmap : map removal_of data
                 = map (λ v, if inactive v then JNull else v) data).
  { apply map_ext_Forall. eapply Forall_impl; [exact Hwf|].
    intros v Hv. by apply removal_of_spec. }
  rewrite Hmap. split; [done|]. clear.
  induction data as [|v data IH]; [done|]. simpl.
  rewrite !filter_cons, IH. destruct (inactive v); simpl.
  - rewrite decide_False; [done|]. intros [_ ?]. discriminate.
  - destruct (is_None v) eqn:Hn.
    + rewrite decide_False by done. rewrite decide_False; [done|].
      intros [? _]. discriminate.
    + rewrite decide_True by done. by rewrite decide_True.
Qed.

Lemma filter_well_formed (P : json → Prop) `{∀ x, Decision (P x)} data :
  Forall well_formed data → Forall well_formed (filter P data).
Proof.
  intros Hwf. apply Forall_forall. intros v Hv.
  apply list_elem_of_filter in Hv as [_ Hv].
  by eapply Forall_forall in Hwf.
Qed.

(** X12: on records with distinct keys [removeDeactivatedList] returns the
    elements of its argument that are neither [None] nor a deactivated
    record, in their order; elements that are not records (numbers, strings,
    lists, whatever they hold) are kept as they are.  The list the caller
    passed is changed in place: every deactivated record in it is replaced
    by [None], and nothing else moves. *)
Theorem removeDeactivatedList_filters (data : list json) :
  Forall well_formed data →
  (removeDeactivatedList data).2
  = filter (λ v, is_None v = false ∧ inactive v = false) data
  ∧ (removeDeactivatedList data).1
    = map (λ v, if inactive v then JNull else v) data
  ∧ (∀ v, v ∈ data → (∀ d, v ≠ JDict d) → v ≠ JNull →
          v ∈ (removeDeactivatedList data).2).
Proof.
  intros Hwf. destruct (removal_filter data Hwf) as [H1 H2].
  split_and!; [exact H2|exact H1|].
  intros v Hv Hd Hn. rewrite H2. apply list_elem_of_filter.
  split; [|exact Hv]. by destruct v as [| | | | |d]; try done; destruct (Hd d).
Qed.

Lemma removeDeactivatedList_filters_witness :
  let off := JDict [("id", JInt 1); ("active", JBool false)] in
  let on := JDict [("id", JInt 2); ("active", JBool true)] in
  let inner := JDict [("id", JInt 3); ("parent", off)] in
  let data := [off; on; JNull; JList [off]; inner; JInt 5] in
  (removeDeactivatedList data).2 = [on; JList [off]; JInt 5]
  ∧ (removeDeactivatedList data).1
    = [JNull; on; JNull; JList [off]; JNull; JInt 5].
Proof.
  intros off on inner data.
  assert (Hwf : Forall well_formed data).
  { repeat (constructor 2; [by apply well_formedb_ok|]). constructor 1. }
  destruct (removeDeactivatedList_filters data Hwf) as (H1 & H2 & _).
  split; [by rewrite H1|by rewrite H2].
Defined.

(** X13: [removeDeactivated] is a clean-up that needs no second pass.  On
    records with distinct keys the list it leaves in [self.data], which is
    also the list it returns, is a sublist of the old one holding no [None]
    and no deactivated record, and calling it again on that list changes
    nothing. *)
Theorem removeDeactivated_idempotent (self_data : list json) :
  Forall well_formed self_data →
  let r := removeDeactivated self_data in
  removeDeactivated r.1 = r
  ∧ r.2 `sublist_of` self_data
  ∧ Forall (λ v, v ≠ JNull ∧ inactive v = false) r.2
  ∧ (Forall (λ v, v ≠ JNull ∧ inactive v = false) self_data →
     r.2 = self_data).
Proof.
  intros Hwf. cbv zeta. unfold removeDeactivated. cbv zeta. cbn [fst snd].
  destruct (removal_filter self_data Hwf) as [_ H2]. rewrite H2.
  set (P := λ v, is_None v = false ∧ inactive v = false).
  assert (Hwf' : Forall well_formed (filter P self_data))
    by by apply filter_well_formed.
  destruct (removal_filter _ Hwf') as [_ H3]. rewrite H3. fold P.
  split_and!.
  - f_equal; apply filter_all, Forall_forall; intros v Hv;
      by apply list_elem_of_filter in Hv as [Hv _].
  - apply sublist_filter.
  - apply Forall_forall. intros v Hv.
    apply list_elem_of_filter in Hv as [[Hn Hi] _].
    split; [|exact Hi]. intros ->. discriminate.
  - intros Hall. apply filter_all. eapply Forall_impl; [exact Hall|].
    intros v [Hn Hi]. split; [|exact Hi]. by destruct v.
Qed.

Lemma removeDeactivated_idempotent_witness :
  let off := JDict [("id", JInt 1); ("active", JBool false)] in
  let on := JDict [("id", JInt 2); ("active", JBool true)] in
  let inner := JDict [("id", JInt 3); ("parent", off)] in
  let data := [off; on; JNull; inner] in
  removeDeactivated data = ([on], [on])
  ∧ removeDeactivated (removeDeactivated data).1 = removeDeactivated data.
Proof.
  intros off on inner data.
  assert (Hwf : Forall well_formed data).
  { repeat (constructor 2; [by apply well_formedb_ok|]). constructor 1. }
  destruct (removeDeactivated_idempotent data Hwf) as (H1 & _).
  split; [reflexivity|exact H1].
Defined.

(** * [makeDictList] *)

Local Open Scope list_scope.

(** ** Keys *)

Lemma key_eqb_class (a b : json) :
  key_eqb a b = true ↔ key_class a = key_class b ∧ hashable a = true.
Proof.
  destruct a as [|[]|n|s|l|d], b as [|[]|m|t|l'|d'];
    cbn [key_eqb eq_int key_class hashable];
    rewrite ?Z.eqb_eq, ?String.eqb_eq; split; try done;
    try (intros [[=] _]; done); try (intros [_ [=]]; done);
    try (intros ->; done); try (intros [=]; done).
Qed.

Lemma key_eqb_refl (a : json) : hashable a = true → key_eqb a a = true.
Proof. intros H. by apply key_eqb_class. Qed.

Lemma key_eqb_hashable (a b : json) :
  key_eqb a b = true → hashable a = true ∧ hashable b = true.
Proof.
  intros H. apply key_eqb_class in H as [Hc Ha]. split; [exact Ha|].
  destruct a, b; try done.
Qed.

Lemma key_eqb_sym (a b : json) : key_eqb a b = key_eqb b a.
Proof.
  destruct (key_eqb a b) eqn:Hab, (key_eqb b a) eqn:Hba; try done.
  - destruct (key_eqb_hashable _ _ Hab) as [_ Hb].
    apply key_eqb_class in Hab as [Hc _].
    assert (key_eqb b a = true) by by apply key_eqb_class. congruence.
  - destruct (key_eqb_hashable _ _ Hba) as [_ Ha].
    apply key_eqb_class in Hba as [Hc _].
    assert (key_eqb a b = true) by by apply key_eqb_class. congruence.
Qed.

Lemma key_eqb_trans (a b c : json) :
  key_eqb a b = true → key_eqb a c = key_eqb b c.
Proof.
  intros Hab. destruct (key_eqb_hashable _ _ Hab) as [Ha Hb].
  apply key_eqb_class in Hab as [Hc _].
  destruct (key_eqb a c) eqn:Hac, (key_eqb b c) eqn:Hbc; try done.
  - apply key_eqb_class in Hac as [Hc' _].
    assert (key_eqb b c = true) by (apply key_eqb_class; split; congruence).
    congruence.
  - apply key_eqb_class in Hbc as [Hc' _].
    assert (key_eqb a c = true) by (apply key_eqb_class; split; congruence).
    congruence.
Qed.

Lemma keyed_get_set (m : dictlist) (i j : json) (e : entry) :
  keyed_get (keyed_set m i e) j
  = if key_eqb i j then Some e else keyed_get m j.
Proof.
  induction m as [|[j0 e0] m IH]; [done|]. simpl.
  destruct (key_eqb j0 i) eqn:H0; simpl.
  - rewrite <- (key_eqb_trans _ _ j H0). by destruct (key_eqb j0 j).
  - rewrite IH. destruct (key_eqb j0 j) eqn:Hj; [|done].
    destruct (key_eqb i j) eqn:Hi; [|done].
    rewrite (key_eqb_trans _ _ i Hj), key_eqb_sym in H0. congruence.
Qed.

(** ** The loops, by their equations *)

Lemma makeDictEntry_dict (items : list (string * json)) :
  makeDictEntry (JDict items)
  = match dict_get items "id" with
    | None => Raise (KeyError "id")
    | Some i =>
        if hashable i then
          match fields_loop items (map (λ kv, (kv.1, Plain kv.2)) items) with
          | Raise ex => Raise ex
          | Ok e => match field_del e "id" with
                    | Raise ex => Raise ex
                    | Ok e => Ok (i, e)
                    end
          end
        else Raise TypeError
    end.
Proof. reflexivity. Qed.

Lemma convertible_dict (items : list (string * json)) :
  convertible (JDict items)
  = (match dict_get items "id" with
     | Some i => hashable i
     | None => false
     end
     && forallb (λ kv, match kv.2 with
                       | JList l => forallb convertible l
                       | _ => true
                       end) items)%bool.
Proof.
  cbn [convertible]. f_equal.
  induction items as [|[k d1] items IH]; [done|].
  cbn [forallb snd]. by rewrite <- IH.
Qed.

Lemma makeDictList_loop_app (data1 data2 : list json) (acc : dictlist) :
  makeDictList_loop (data1 ++ data2) acc
  = match makeDictList_loop data1 acc with
    | Raise ex => Raise ex
    | Ok m => makeDictList_loop data2 m
    end.
Proof.
  revert acc. induction data1 as [|d data1 IH]; intros acc; [done|].
  simpl. destruct (makeDictEntry d) as [[i e]|ex]; [apply IH|done].
Qed.

Lemma makeDictList_loop_ok (data : list json) (acc : dictlist) :
  (∃ m, makeDictList_loop data acc = Ok m)
  ↔ Forall (λ d, ∃ r, makeDictEntry d = Ok r) data.
Proof.
  revert acc. induction data as [|d data IH]; intros acc.
  - split; [constructor|by exists acc].
  - simpl. split.
    + intros [m Hm]. destruct (makeDictEntry d) as [[i e]|ex] eqn:Hd; [|done].
      constructor; [by eexists|]. apply (IH (keyed_set acc i e)). by exists m.
    + intros H. inversion H as [|? ? [[i e] Hd] Hrest]; subst.
      rewrite Hd. by apply IH.
Qed.

Lemma makeDictList_loop_raise (data : list json) (acc : dictlist) (ex : exn) :
  makeDictList_loop data acc = Raise ex →
  ∃ d, d ∈ data ∧ makeDictEntry d = Raise ex.
Proof.
  revert acc. induction data as [|d data IH]; intros acc; [done|]. simpl.
  destruct (makeDictEntry d) as [[i e]|ex'] eqn:Hd.
  - intros H. destruct (IH _ H) as (d' & Hin & Hd').
    exists d'. split; [by right|done].
  - intros [= <-]. exists d. split; [by left|done].
Qed.

Lemma fields_loop_ok (its : list (string * json)) (e : entry) :
  (∃ e', fields_loop its e = Ok e')
  ↔ Forall (λ kv, ∀ l, kv.2 = JList l → ∃ m, makeDictList l = Ok m) its.
Proof.
  revert e. induction its as [|[k d1] its IH]; intros e.
  - split; [constructor|by exists e].
  - cbn [fields_loop]. split.
    + intros [e' He']. constructor.
      * intros l Hl. simpl in Hl. subst d1.
        destruct (makeDictList l) as [m|ex]; [by exists m|done].
      * destruct d1 as [| | | |l|];
          try (by apply (IH e); exists e').
        destruct (makeDictList l) as [m|ex]; [|done].
        apply (IH (field_set e k (Keyed m))). by exists e'.
    + intros H. inversion H as [|? ? Hd Hrest]; subst.
      destruct d1 as [| | | |l|]; try (by apply IH).
      destruct (Hd l eq_refl) as [m ->]. by apply IH.
Qed.

Lemma fields_loop_raise (its : list (string * json)) (e : entry) (ex : exn) :
  fields_loop its e = Raise ex →
  ∃ k l, (k, JList l) ∈ its ∧ makeDictList l = Raise ex.
Proof.
  revert e. induction its as [|[k d1] its IH]; intros e; [done|].
  cbn [fields_loop]. intros H.
  assert (Hrest : ∀ e0, fields_loop its e0 = Raise ex →
                        ∃ k0 l, (k0, JList l) ∈ (k, d1) :: its
                                ∧ makeDictList l = Raise ex).
  { intros e0 H0. destruct (IH _ H0) as (k0 & l & Hin & Hl).
    exists k0, l. split; [by right|done]. }
  destruct d1 as [| | | |l|]; try (by eapply Hrest).
  destruct (makeDictList l) as [m|ex'] eqn:Hl; [by eapply Hrest|].
  injection H as <-. exists k, l. split; [by left|done].
Qed.

Lemma field_set_keys (e : entry) (k : string) (v : dval) :
  k ∈ e.*1 → (field_set e k v).*1 = e.*1.
Proof.
  induction e as [|[k' v'] e IH]; [by intros ?%elem_of_nil|].
  intros Hin. simpl. destruct (String.eqb k' k) eqn:Hk; [done|].
  simpl. f_equal. apply IH. apply elem_of_cons in Hin as [->|Hin]; [|done].
  by rewrite String.eqb_refl in Hk.
Qed.

Lemma fields_loop_keys (its : list (string * json)) (e e' : entry) :
  fields_loop its e = Ok e' →
  Forall (λ kv, kv.1 ∈ e.*1) its → e'.*1 = e.*1.
Proof.
  revert e. induction its as [|[k d1] its IH]; intros e.
  - by intros [= ->].
  - cbn [fields_loop]. intros H Hall.
    inversion Hall as [|? ? Hk Hrest]; subst.
    destruct d1 as [| | | |l|]; try (by apply IH).
    destruct (makeDictList l) as [m|ex]; [|done].
    rewrite <- (field_set_keys e k (Keyed m)) by done.
    apply IH; [done|]. by rewrite field_set_keys.
Qed.

Lemma dict_get_elem (d : list (string * json)) (k : string) (v : json) :
  dict_get d k = Some v → k ∈ d.*1.
Proof.
  induction d as [|[k' v'] d IH]; [done|]. simpl.
  destruct (String.eqb k' k) eqn:Hk.
  - apply String.eqb_eq in Hk as ->. intros _. by left.
  - intros H. right. by apply IH.
Qed.

Lemma field_del_ok (e : entry) (k : string) :
  k ∈ e.*1 → field_del e k = Ok (filter (λ kv, kv.1 ≠ k) e).
Proof.
  intros Hin. unfold field_del.
  assert (existsb (λ kv : string * dval, String.eqb kv.1 k) e = true) as ->;
    [|done].
  apply existsb_exists. apply list_elem_of_fmap in Hin as ([k' v] & -> & Hin).
  exists (k', v). split; [by apply list_elem_of_In|apply String.eqb_refl].
Qed.

(** One element: the loop over its fields raises or not, [del] never
    does. *)
Lemma makeDictEntry_fields (items : list (string * json)) (i : json) :
  dict_get items "id" = Some i → hashable i = true →
  makeDictEntry (JDict items)
  = match fields_loop items (map (λ kv, (kv.1, Plain kv.2)) items) with
    | Raise ex => Raise ex
    | Ok e => Ok (i, filter (λ kv, kv.1 ≠ "id") e)
    end.
Proof.
  intros Hid Hh. rewrite makeDictEntry_dict, Hid, Hh.
  destruct (fields_loop _ _) as [e|ex] eqn:He; [|done].
  rewrite field_del_ok; [done|].
  rewrite (fields_loop_keys _ _ _ He).
  - rewrite <- list_fmap_compose. by apply dict_get_elem in Hid.
  - apply Forall_forall. intros [k v] Hin. rewrite <- list_fmap_compose.
    apply list_elem_of_fmap. by exists (k, v).
Qed.

(** ** Which lists are accepted *)

Lemma pair_error_kind (n : nat) (x : json) (ex : exn) :
  pair_error n x = Some ex → conversion_error ex.
Proof.
  unfold pair_error, conversion_error.
  destruct (py_iter x) as [l|e] eqn:Hx.
  - destruct l as [|k [|v [|? ?]]]; unfold wrong_length;
      try (intros [= <-]; right; right; by eexists).
    destruct (hashable k); [done|]. intros [= <-]. by right; left.
  - intros [= <-]. destruct x; simpl in Hx; try done;
      injection Hx as <-; by right; left.
Qed.

Lemma first_pair_error_kind (n : nat) (elems : list json) (ex : exn) :
  first_pair_error n elems = Some ex → conversion_error ex.
Proof.
  revert n. induction elems as [|x elems IH]; intros n; [done|]. simpl.
  destruct (pair_error n x) as [e|] eqn:Hx.
  - intros [= <-]. by eapply pair_error_kind.
  - apply IH.
Qed.

Lemma dict_error_kind (d : json) (ex : exn) :
  dict_error d = Some ex → conversion_error ex.
Proof.
  unfold dict_error. intros H.
  assert (Hit : match py_iter d with
                | Raise e => Some e
                | Ok elems => first_pair_error 0 elems
                end = Some ex → conversion_error ex).
  { destruct (py_iter d) as [l|e] eqn:Hd.
    - apply first_pair_error_kind.
    - intros [= <-]. destruct d; simpl in Hd; try done;
        injection Hd as <-; by right; left. }
  destruct d; first [by apply Hit|done].
Qed.

Lemma entry_spec_other (d : json) :
  (∀ items, d ≠ JDict items) → entry_spec d.
Proof.
  intros Hd.
  assert (Hraise : ∃ ex, makeDictEntry d = Raise ex ∧ conversion_error ex).
  { destruct d as [| | | | |items]; try (by destruct (Hd items));
      cbn [makeDictEntry];
      (destruct (dict_error _) as [ex|] eqn:He;
       [exists ex; split; [done|by eapply dict_error_kind]
       |exists TypeError; split; [done|by right; left]]). }
  destruct Hraise as (ex & Hex & Hk). split.
  - split.
    + intros [r Hr]. congruence.
    + destruct d; try done. by destruct (Hd d).
  - intros ex' Hex'. congruence.
Qed.

Lemma makeDictList_spec (l : list json) :
  Forall entry_spec l →
  ((∃ m, makeDictList l = Ok m) ↔ forallb convertible l = true)
  ∧ (∀ ex, makeDictList l = Raise ex → conversion_error ex).
Proof.
  intros Hl. unfold makeDictList. split.
  - rewrite makeDictList_loop_ok, forallb_forall, Forall_forall.
    split; intros H d Hd.
    + apply list_elem_of_In in Hd.
      eapply Forall_forall in Hl; [|exact Hd]. by apply Hl, H.
    + eapply Forall_forall in Hl; [|exact Hd].
      apply Hl, H. by apply list_elem_of_In.
  - intros ex Hex. apply makeDictList_loop_raise in Hex as (d & Hd & Hex).
    eapply Forall_forall in Hl; [|exact Hd]. by apply Hl.
Qed.

Lemma entry_spec_all (d : json) :
  entry_spec d ∧ (∀ l, d = JList l → Forall entry_spec l).
Proof.
  induction d as [| | | |l IH|items IH] using json_nested_ind;
    try (split; [by apply entry_spec_other|done]).
  - split; [by apply entry_spec_other|]. intros l' [= <-].
    eapply Forall_impl; [exact IH|]. by intros d [H _].
  - split; [|done].
    assert (Hlists : ∀ k l, (k, JList l) ∈ items →
              ((∃ m, makeDictList l = Ok m) ↔ forallb convertible l = true)
              ∧ (∀ ex, makeDictList l = Raise ex → conversion_error ex)).
    { intros k l Hin. apply makeDictList_spec.
      eapply Forall_forall in IH; [|exact Hin]. by apply IH. }
    unfold entry_spec. rewrite convertible_dict.
    destruct (dict_get items "id") as [i|] eqn:Hid.
    2:{ rewrite makeDictEntry_dict, Hid. split.
        - split; [by intros [r Hr]|done].
        - intros ex [= <-]. by left. }
    destruct (hashable i) eqn:Hh.
    2:{ rewrite makeDictEntry_dict, Hid, Hh. split.
        - split; [by intros [r Hr]|done].
        - intros ex [= <-]. by right; left. }
    rewrite (makeDictEntry_fields _ _ Hid Hh). rewrite andb_true_l. split.
    + transitivity (∃ e', fields_loop items
                            (map (λ kv, (kv.1, Plain kv.2)) items) = Ok e').
      { destruct (fields_loop _ _) as [e|ex]; split.
        - intros _. by exists e.
        - intros _. by eexists.
        - by intros [r Hr].
        - by intros [e' He']. }
      rewrite fields_loop_ok, forallb_forall, Forall_forall.
      split; intros H [k v] Hin.
      * apply list_elem_of_In in Hin. specialize (H _ Hin). simpl in *.
        destruct v as [| | | |l|]; try done.
        apply (Hlists k l Hin). by apply H.
      * intros l Hv. simpl in Hv. subst v.
        apply (Hlists k l Hin).
        apply list_elem_of_In in Hin. by apply (H _ Hin).
    + intros ex Hex.
      destruct (fields_loop _ _) as [e|ex'] eqn:Hf; [done|].
      injection Hex as ->.
      apply fields_loop_raise in Hf as (k & l & Hin & Hl).
      by apply (Hlists k l Hin).
Qed.

(** X14: [makeDictList] returns a dict exactly for the lists it can
    convert: every element is a record with an ['id'] that can be a key,
    and so is every element of every list held by a field of such a
    record, at any depth.  Anything else ends in an exception, which is a
    [KeyError] for ['id'], a [TypeError] or a [ValueError], and no dict is
    returned.  After elements that convert, a record without ['id'] gives
    the [KeyError] and an element that is [None], a boolean or a number
    the [TypeError]. *)
Theorem makeDictList_accepts (data : list json) :
  ((∃ m, makeDictList data = Ok m) ↔ forallb convertible data = true)
  ∧ (∀ ex, makeDictList data = Raise ex → conversion_error ex)
  ∧ (∀ good items rest,
       data = (good ++ JDict items :: rest)%list →
       forallb convertible good = true →
       dict_get items "id" = None →
       makeDictList data = Raise (KeyError "id"))
  ∧ (∀ good x rest,
       data = (good ++ x :: rest)%list →
       forallb convertible good = true →
       x = JNull ∨ (∃ b, x = JBool b) ∨ (∃ n, x = JInt n) →
       makeDictList data = Raise TypeError).
Proof.
  assert (Hspec : ∀ l, Forall entry_spec l).
  { intros l. apply Forall_forall. intros d _. apply entry_spec_all. }
  assert (Hgood : ∀ good x rest,
            forallb convertible good = true →
            makeDictList (good ++ x :: rest)
            = match makeDictEntry x with
              | Raise ex => Raise ex
              | Ok _ => makeDictList (good ++ x :: rest)
              end).
  { intros good x rest Hg.
    destruct (makeDictEntry x) as [r|ex] eqn:Hx; [done|].
    apply (makeDictList_spec good (Hspec good)) in Hg as [m Hm].
    unfold makeDictList in *. rewrite makeDictList_loop_app, Hm. simpl.
    by rewrite Hx. }
  split_and!.
  - apply makeDictList_spec, Hspec.
  - apply makeDictList_spec, Hspec.
  - intros good items rest -> Hg Hid. rewrite Hgood by done.
    by rewrite makeDictEntry_dict, Hid.
  - intros good x rest -> Hg Hx. rewrite Hgood by done.
    by destruct Hx as [->|[[b ->]|[n ->]]].
Qed.

Lemma makeDictList_accepts_witness :
  let tag (n : Z) := JDict [("id", JInt n); ("name", JStr "t")] in
  let item (l : list json) := JDict [("id", JInt 1); ("tags", JList l)] in
  (∃ m, makeDictList [item [tag 7; tag 8]] = Ok m)
  ∧ ¬ (∃ m, makeDictList [item [tag 7; JStr "t8"]] = Ok m)
  ∧ makeDictList [item [tag 7]; JDict [("name", JStr "no id")]]
    = Raise (KeyError "id")
  ∧ makeDictList [item [tag 7]; JNull; item []] = Raise TypeError.
Proof.
  intros tag item. split_and!.
  - by apply (makeDictList_accepts [item [tag 7; tag 8]]).
  - intros H. by apply (makeDictList_accepts [item [tag 7; JStr "t8"]]) in H.
  - by apply (makeDictList_accepts _)
      with (good := [item [tag 7]]) (items := [("name", JStr "no id")])
           (rest := []).
  - apply (makeDictList_accepts _)
      with (good := [item [tag 7]]) (x := JNull) (rest := [item []]);
      [done|done|by left].
Defined.

(** ** What the dict holds *)

Lemma field_set_app (pre rest : entry) (k : string) (v0 v : dval) :
  k ∉ pre.*1 →
  field_set (pre ++ (k, v0) :: rest) k v = (pre ++ (k, v) :: rest)%list.
Proof.
  induction pre as [|[k' v'] pre IH]; intros Hk; simpl.
  - by rewrite String.eqb_refl.
  - destruct (String.eqb k' k) eqn:Hk'.
    + apply String.eqb_eq in Hk' as ->. destruct Hk. by left.
    + f_equal. apply IH. intros Hin. apply Hk. by right.
Qed.

Lemma fields_loop_form (its : list (string * json)) (pre e : entry) :
  NoDup (pre.*1 ++ its.*1) →
  fields_loop its (pre ++ map (λ kv, (kv.1, Plain kv.2)) its) = Ok e →
  ∃ fs, e = (pre ++ fs)%list
        ∧ Forall2 (λ kv f, f.1 = kv.1 ∧ field_form kv.2 f.2) its fs.
Proof.
  revert pre. induction its as [|[k d1] its IH]; intros pre Hnd.
  - simpl. intros [= <-]. exists []. by split.
  - cbn [fields_loop map fst snd].
    assert (Hk : k ∉ pre.*1).
    { apply NoDup_app in Hnd as (_ & Hnd & _). intros Hin.
      apply (Hnd _ Hin). by left. }
    assert (Hnd' : ∀ f, NoDup ((pre ++ [(k, f)]).*1 ++ its.*1)).
    { intros f. by rewrite fmap_app, <- app_assoc. }
    assert (Hstep : ∀ f, field_form d1 f →
              fields_loop its
                (pre ++ (k, f) :: map (λ kv, (kv.1, Plain kv.2)) its) = Ok e →
              ∃ fs, e = (pre ++ fs)%list
                ∧ Forall2 (λ kv f, f.1 = kv.1 ∧ field_form kv.2 f.2)
                    ((k, d1) :: its) fs).
    { intros f Hf He.
      change (pre ++ (k, f) :: ?l)%list with (pre ++ [(k, f)] ++ l)%list in He.
      rewrite app_assoc in He.
      destruct (IH _ (Hnd' f) He) as (fs & -> & Hfs).
      exists ((k, f) :: fs). split; [by rewrite <- app_assoc|].
      by constructor. }
    destruct d1 as [| | | |l|]; try (by apply Hstep).
    destruct (makeDictList l) as [m|ex] eqn:Hl; [|done].
    rewrite field_set_app by done. apply Hstep. by exists m.
Qed.

Lemma Forall2_filter_keys {A B} (R : string * A → string * B → Prop)
    (k : string) (l1 : list (string * A)) (l2 : list (string * B)) :
  (∀ x y, R x y → y.1 = x.1) → Forall2 R l1 l2 →
  Forall2 R (filter (λ kv, kv.1 ≠ k) l1) (filter (λ kv, kv.1 ≠ k) l2).
Proof.
  intros HR. induction 1 as [|x y l1 l2 Hxy Hl IH]; [constructor|].
  rewrite !filter_cons. rewrite (HR _ _ Hxy).
  destruct (decide (x.1 ≠ k)); [by constructor|done].
Qed.

Lemma Forall2_keys {A B} (R : string * A → string * B → Prop)
    (l1 : list (string * A)) (l2 : list (string * B)) :
  (∀ x y, R x y → y.1 = x.1) → Forall2 R l1 l2 → l2.*1 = l1.*1.
Proof.
  intros HR. induction 1 as [|x y l1 l2 Hxy Hl IH]; [done|].
  rewrite !fmap_cons. by rewrite (HR _ _ Hxy), IH.
Qed.

Lemma makeDictEntry_id (d : json) (i : json) (e : entry) :
  makeDictEntry d = Ok (i, e) → id_of d = Some i ∧ hashable i = true.
Proof.
  destruct d as [| | | | |items];
    try (cbn [makeDictEntry]; by destruct (dict_error _)).
  rewrite makeDictEntry_dict. cbn [id_of].
  destruct (dict_get items "id") as [i'|]; [|done].
  destruct (hashable i') eqn:Hh; [|done].
  destruct (fields_loop _ _) as [e'|]; [|done].
  destruct (field_del _ _); [|done]. by intros [= -> _].
Qed.

Lemma makeDictEntry_form (d : json) (ie : json * entry) :
  makeDictEntry d = Ok ie → well_formed d → entry_form d ie.
Proof.
  destruct ie as [i e]. intros Hd Hwf.
  destruct (makeDictEntry_id _ _ _ Hd) as [Hid Hh].
  destruct d as [| | | | |items]; try done. cbn [id_of] in Hid.
  rewrite (makeDictEntry_fields _ _ Hid Hh) in Hd.
  destruct (fields_loop _ _) as [e'|] eqn:He; [|done].
  injection Hd as <-.
  inversion Hwf as [| | | | |? Hnd _]; subst.
  destruct (fields_loop_form items [] e' Hnd He) as (fs & -> & Hfs).
  exists items. split_and!; [done|done|]. simpl.
  apply Forall2_filter_keys; [by intros ? ? [? _]|done].
Qed.

Lemma keyed_set_fresh (m : dictlist) (i : json) (e : entry) :
  keyed_get m i = None → keyed_set m i e = (m ++ [(i, e)])%list.
Proof.
  induction m as [|[j e'] m IH]; [done|]. simpl.
  destruct (key_eqb j i); [done|]. intros H. by rewrite IH.
Qed.

Lemma same_id_false (d d' : json) (i j : json) :
  same_id d d' = false → id_of d = Some i → id_of d' = Some j →
  key_eqb i j = false.
Proof. intros H Hi Hj. unfold same_id in H. by rewrite Hi, Hj in H. Qed.

Lemma makeDictList_loop_distinct (data : list json) (acc m : dictlist) :
  makeDictList_loop data acc = Ok m →
  Forall well_formed data → distinct_ids data = true →
  (∀ d i, d ∈ data → id_of d = Some i → keyed_get acc i = None) →
  ∃ es, m = (acc ++ es)%list ∧ Forall2 entry_form data es.
Proof.
  revert acc. induction data as [|d data IH]; intros acc.
  - intros [= <-] _ _ _. exists []. split; [by rewrite app_nil_r|constructor].
  - simpl. destruct (makeDictEntry d) as [[i e]|] eqn:Hd; [|done].
    intros Hm Hwf Hdist Hfresh.
    inversion Hwf as [|? ? Hwd Hwrest]; subst.
    apply andb_prop in Hdist as [Hd1 Hdist].
    destruct (makeDictEntry_id _ _ _ Hd) as [Hid Hh].
    rewrite keyed_set_fresh in Hm
      by (apply (Hfresh d); [by left|done]).
    destruct (IH _ Hm Hwrest Hdist) as (es & -> & Hes).
    + intros d' j Hin Hj.
      rewrite <- (keyed_set_fresh acc i e)
        by (apply (Hfresh d); [by left|done]).
      rewrite keyed_get_set.
      rewrite (same_id_false d d' i j); [|  |done|done].
      * apply (Hfresh d'); [by right|done].
      * rewrite forallb_forall in Hd1. apply list_elem_of_In in Hin.
        specialize (Hd1 _ Hin). by apply negb_true_iff in Hd1.
    + exists ((i, e) :: es). split; [by rewrite <- app_assoc|].
      constructor; [|done]. by apply makeDictEntry_form.
Qed.

(** X15: on a list that converts and in which no two elements have equal
    ids, [makeDictList] returns one entry per element, in the order of the
    list.  The entry of an element is stored under its ['id'] and holds
    its other fields, in their order: a field whose value was a list holds
    the dict built from that list, every other field, a nested record
    included, holds the value it had.  The ['id'] is no field of the
    entry. *)
Theorem makeDictList_distinct_ids (data : list json) :
  forallb convertible data = true →
  Forall well_formed data →
  distinct_ids data = true →
  ∃ m, makeDictList data = Ok m
       ∧ Forall2 entry_form data m
       ∧ Forall (λ ie, "id" ∉ ie.2.*1) m.
Proof.
  intros Hconv Hwf Hdist.
  assert (Hspec : Forall entry_spec data).
  { apply Forall_forall. intros d _. apply entry_spec_all. }
  apply (makeDictList_spec data Hspec) in Hconv as [m Hm].
  exists m. split; [done|].
  destruct (makeDictList_loop_distinct data [] m Hm Hwf Hdist)
    as (es & -> & Hes); [done|].
  split; [done|]. simpl. clear -Hes.
  induction Hes as [|d [i e] data es Hd _ IH]; constructor; [|done].
  destruct Hd as (items & _ & _ & Hf). clear -Hf.
  cbn [snd] in Hf |- *. rewrite (Forall2_keys _ _ _ (λ x y H, proj1 H) Hf). intros Hin.
  apply list_elem_of_fmap in Hin as (kv & Hk & Hin).
  by apply list_elem_of_filter in Hin as [Hne _].
Qed.

Lemma makeDictList_distinct_ids_witness :
  let tag (n : Z) := JDict [("id", JInt n)] in
  let item (n : Z) :=
    JDict [("name", JStr "x"); ("id", JInt n);
           ("category", JDict [("id", JInt 9); ("tags", JList [])]);
           ("tags", JList [tag 7; tag 8])] in
  makeDictList [item 1; item 2]
  = Ok [(JInt 1, [("name", Plain (JStr "x"));
                  ("category", Plain (JDict [("id", JInt 9); ("tags", JList [])]));
                  ("tags", Keyed [(JInt 7, []); (JInt 8, [])])]);
        (JInt 2, [("name", Plain (JStr "x"));
                  ("category", Plain (JDict [("id", JInt 9); ("tags", JList [])]));
                  ("tags", Keyed [(JInt 7, []); (JInt 8, [])])])]
  ∧ ∃ m, makeDictList [item 1; item 2] = Ok m
         ∧ Forall2 entry_form [item 1; item 2] m.
Proof.
  intros tag item. split; [reflexivity|].
  destruct (makeDictList_distinct_ids [item 1; item 2]) as (m & Hm & Hf & _).
  - reflexivity.
  - repeat (constructor 2; [by apply well_formedb_ok|]). constructor 1.
  - reflexivity.
  - by exists m.
Defined.

Lemma makeDictList_loop_get_None (data : list json) (acc m : dictlist)
    (j : json) :
  makeDictList_loop data acc = Ok m →
  keyed_get m j = None
  ↔ keyed_get acc j = None
    ∧ Forall (λ d, ∀ i, id_of d = Some i → key_eqb i j = false) data.
Proof.
  revert acc. induction data as [|d data IH]; intros acc.
  - intros [= <-]. split; [by intros ?; split|by intros [? _]].
  - simpl. destruct (makeDictEntry d) as [[i e]|] eqn:Hd; [|done].
    intros Hm. destruct (makeDictEntry_id _ _ _ Hd) as [Hid Hh].
    rewrite (IH _ Hm), keyed_get_set, Forall_cons. rewrite Hid.
    destruct (key_eqb i j) eqn:Hij; split.
    + by intros [? _].
    + intros (_ & H & _). specialize (H i eq_refl). congruence.
    + intros [? ?]. split_and!; try done. by intros i' [= <-].
    + by intros (? & _ & ?).
Qed.

Lemma makeDictList_loop_get_keep (data : list json) (acc m : dictlist)
    (j : json) :
  makeDictList_loop data acc = Ok m →
  Forall (λ d, ∀ i, id_of d = Some i → key_eqb i j = false) data →
  keyed_get m j = keyed_get acc j.
Proof.
  revert acc. induction data as [|d data IH]; intros acc.
  - by intros [= <-].
  - simpl. destruct (makeDictEntry d) as [[i e]|] eqn:Hd; [|done].
    intros Hm Hall. inversion Hall as [|? ? Hi Hrest]; subst.
    destruct (makeDictEntry_id _ _ _ Hd) as [Hid Hh].
    rewrite (IH _ Hm Hrest), keyed_get_set. by rewrite (Hi i Hid).
Qed.

Lemma keyed_set_length (m : dictlist) (i : json) (e : entry) :
  (length (keyed_set m i e) ≤ S (length m))%nat.
Proof.
  induction m as [|[j e'] m IH]; [done|]. simpl.
  destruct (key_eqb j i); simpl; lia.
Qed.

Lemma makeDictList_loop_length (data : list json) (acc m : dictlist) :
  makeDictList_loop data acc = Ok m →
  (length m ≤ length acc + length data)%nat.
Proof.
  revert acc. induction data as [|d data IH]; intros acc.
  - intros [= <-]. lia.
  - simpl. destruct (makeDictEntry d) as [[i e]|] eqn:Hd; [|done].
    intros Hm. apply IH in Hm. pose proof (keyed_set_length acc i e). lia.
Qed.

Lemma makeDictList_found (pre post : list json) (d : json) (m : dictlist) :
  makeDictList (pre ++ d :: post) = Ok m →
  well_formed d →
  Forall (λ d', same_id d d' = false) post →
  ∃ ie, entry_form d ie
        ∧ keyed_get m ie.1 = Some ie.2
        ∧ ∀ j, key_eqb ie.1 j = true → keyed_get m j = Some ie.2.
Proof.
  unfold makeDictList. intros Hm Hwf Hpost.
  rewrite makeDictList_loop_app in Hm.
  destruct (makeDictList_loop pre []) as [m1|] eqn:Hpre; [|done].
  simpl in Hm. destruct (makeDictEntry d) as [[i e]|] eqn:Hd; [|done].
  destruct (makeDictEntry_id _ _ _ Hd) as [Hid Hh].
  assert (Hall : ∀ j, key_eqb i j = true → keyed_get m j = Some e).
  { intros j Hij. rewrite (makeDictList_loop_get_keep _ _ _ j Hm).
    - by rewrite keyed_get_set, Hij.
    - eapply Forall_impl; [exact Hpost|]. intros d' Hs i' Hi'.
      rewrite key_eqb_sym, <- (key_eqb_trans _ _ i' Hij).
      by apply (same_id_false d d'). }
  exists (i, e). split_and!.
  - by apply makeDictEntry_form.
  - apply Hall. by apply key_eqb_refl.
  - exact Hall.
Qed.

(** X16: when two elements have equal ids the later one wins.  Keys are
    compared as Python compares them, so [True] and 1 are one key.  In the
    dict [makeDictList] returns, a key is missing exactly when no element
    has an id equal to it; an element that no later element shares its id
    with is found under its id, and under every key equal to it, as the
    entry built from that element; and the dict has at most as many
    entries as the list has elements. *)
Theorem makeDictList_last_wins (data : list json) (m : dictlist) :
  makeDictList data = Ok m →
  Forall well_formed data →
  (∀ j, keyed_get m j = None
        ↔ Forall (λ d, ∀ i, id_of d = Some i → key_eqb i j = false) data)
  ∧ (∀ pre d post,
       data = pre ++ d :: post →
       Forall (λ d', same_id d d' = false) post →
       ∃ ie, entry_form d ie
             ∧ keyed_get m ie.1 = Some ie.2
             ∧ ∀ j, key_eqb ie.1 j = true → keyed_get m j = Some ie.2)
  ∧ (length m ≤ length data)%nat.
Proof.
  unfold makeDictList. intros Hm Hwf. split_and!.
  - intros j. rewrite (makeDictList_loop_get_None _ _ _ j Hm).
    split; [by intros [_ ?]|by intros ?; split].
  - intros pre d post -> Hpost.
    apply (makeDictList_found pre post); [exact Hm| |done].
    rewrite Forall_app, Forall_cons in Hwf. by destruct Hwf as (_ & ? & _).
  - by apply makeDictList_loop_length in Hm.
Qed.

Lemma makeDictList_last_wins_witness :
  let item (i : json) (s : string) := JDict [("id", i); ("name", JStr s)] in
  let data := [item (JInt 1) "first"; item (JInt 2) "other";
               item (JBool true) "last"] in
  makeDictList data = Ok [(JInt 1, [("name", Plain (JStr "last"))]);
                          (JInt 2, [("name", Plain (JStr "other"))])]
  ∧ ∃ m ie, makeDictList data = Ok m
            ∧ entry_form (item (JBool true) "last") ie
            ∧ keyed_get m (JInt 1) = Some ie.2.
Proof.
  intros item data. split; [reflexivity|].
  set (m := [(JInt 1, [("name", Plain (JStr "last"))]);
             (JInt 2, [("name", Plain (JStr "other"))])] : dictlist).
  assert (Hm : makeDictList data = Ok m) by reflexivity.
  assert (Hwf : Forall well_formed data).
  { repeat (constructor 2; [by apply well_formedb_ok|]). constructor 1. }
  destruct (makeDictList_last_wins data m Hm Hwf) as (_ & H & _).
  destruct (H [item (JInt 1) "first"; item (JInt 2) "other"]
              (item (JBool true) "last") [] eq_refl ltac:(constructor))
    as (ie & Hform & _ & Hall).
  exists m, ie. split_and!; [reflexivity|exact Hform|].
  apply Hall. destruct Hform as (items & [= <-] & [= <-] & _). reflexivity.
Defined.

(** ** After the clean-up *)

Lemma convertible_not_None (d : json) :
  convertible d = true → is_None d = false.
Proof. by destruct d. Qed.

(** X17: [removeDeactivated] and then [makeDictList].  A list that
    converts still converts after the clean-up, and the dict then has a
    key exactly when an element that is not deactivated has an id equal
    to it: the ids of deactivated records are gone, unless a record that
    stays has the same id.  A record that stays, and shares its id with no
    later record that stays, is found under its id as the entry built
    from it as it was; its lists are converted as they were, the clean-up
    did not touch them. *)
Theorem cleaned_list_converts (self_data : list json) :
  forallb convertible self_data = true →
  Forall well_formed self_data →
  ∃ m, makeDictList (removeDeactivated self_data).2 = Ok m
       ∧ (∀ j, keyed_get m j = None
               ↔ Forall (λ d, inactive d = false →
                              ∀ i, id_of d = Some i → key_eqb i j = false)
                   self_data)
       ∧ (∀ pre d post,
            self_data = pre ++ d :: post →
            inactive d = false →
            Forall (λ d', inactive d' = false → same_id d d' = false) post →
            ∃ ie, entry_form d ie ∧ keyed_get m ie.1 = Some ie.2).
Proof.
  intros Hconv Hwf. unfold removeDeactivated. cbv zeta. cbn [snd].
  destruct (removal_filter self_data Hwf) as [_ ->].
  set (P := λ v, is_None v = false ∧ inactive v = false).
  rewrite forallb_forall in Hconv.
  assert (HP : ∀ d, d ∈ self_data → P d ↔ inactive d = false).
  { intros d Hd. unfold P. split; [by intros [_ ?]|]. intros Hi.
    split; [|done]. apply convertible_not_None, Hconv.
    by apply list_elem_of_In. }
  assert (Hspec : Forall entry_spec (filter P self_data)).
  { apply Forall_forall. intros d _. apply entry_spec_all. }
  destruct (proj2 (proj1 (makeDictList_spec _ Hspec))) as [m Hm].
  { apply forallb_forall. intros d Hd. apply Hconv.
    apply list_elem_of_In in Hd. apply list_elem_of_filter in Hd as [_ Hd].
    by apply list_elem_of_In. }
  exists m. split_and!; [done| |].
  - intros j. rewrite (makeDictList_loop_get_None _ _ _ j Hm).
    rewrite !Forall_forall. split.
    + intros [_ H] d Hd Hi. apply H. apply list_elem_of_filter.
      split; [exact (proj2 (HP d Hd) Hi)|done].
    + intros H. split; [done|]. intros d Hd.
      apply list_elem_of_filter in Hd as [Hp Hd]. apply H; [done|].
      exact (proj1 (HP d Hd) Hp).
  - intros pre d post -> Hi Hpost.
    assert (Hd : P d).
    { apply HP; [|done]. apply elem_of_app. right.
      apply elem_of_cons. by left. }
    rewrite filter_app, filter_cons, decide_True in Hm by done.
    destruct (makeDictList_found _ _ _ _ Hm) as (ie & Hf & Hg & _).
    + rewrite Forall_app, Forall_cons in Hwf. by destruct Hwf as (_ & ? & _).
    + apply Forall_forall. intros d' Hd'.
      apply list_elem_of_filter in Hd' as [[_ Hi'] Hd'].
      rewrite Forall_forall in Hpost. by apply Hpost.
    + by exists ie.
Qed.

Lemma cleaned_list_converts_witness :
  let tag (a : bool) := JDict [("id", JInt 7); ("active", JBool a)] in
  let item (n : Z) (a : bool) :=
    JDict [("id", JInt n); ("active", JBool a); ("tags", JList [tag false])] in
  let data := [item 1 true; item 2 false; item 3 true] in
  makeDictList (removeDeactivated data).2
  = Ok [(JInt 1, [("active", Plain (JBool true));
                  ("tags", Keyed [(JInt 7, [("active", Plain (JBool false))])])]);
        (JInt 3, [("active", Plain (JBool true));
                  ("tags", Keyed [(JInt 7, [("active", Plain (JBool false))])])])]
  ∧ ∃ m, makeDictList (removeDeactivated data).2 = Ok m
         ∧ keyed_get m (JInt 2) = None.
Proof.
  intros tag item data. split; [reflexivity|].
  assert (Hwf : Forall well_formed data).
  { repeat (constructor 2; [by apply well_formedb_ok|]). constructor 1. }
  destruct (cleaned_list_converts data eq_refl Hwf) as (m & Hm & Hnone & _).
  exists m. split; [exact Hm|]. apply Hnone.
  repeat (constructor 2; [by intros ? i [= <-]|]). constructor 1.
Defined.
